(** * Agent_Coder: the browser handlers of [static/script.js]

    The script wires three [async] click handlers to a page:
    [loadRepo], [askQuestion] and [generateSummary].  Each one reads
    text inputs, issues one [fetch] and writes the outcome to a status
    area or to the chat log.

    The handlers are embedded as programs of a small state-and-completion
    monad over a [World]: the page (values of the inputs, text of the
    status areas, children of the chat box), the chronological trace of
    effects (alerts, writes, requests) and the network, which settles
    every request the page issues.  JavaScript values that reach the
    handlers are the values [JSON.parse] can build, plus [undefined].

    Standing assumption on the page: the seven elements the handlers look
    up by id exist ([getElementById] never returns [null]). *)

From Stdlib Require Import NArith ZArith String Ascii.
From stdpp Require Import base option list gmap pretty.

Set Warnings "-register-all".
Local Open Scope N_scope.

(** ** Strings

    A JavaScript string is a sequence of 16-bit code units. *)

Abbreviation jsstring := (list N).

(** A literal of the script; the literals used here are ASCII, so each
    byte is its own code unit. *)
Definition js (s : string) : jsstring :=
  (λ a, N_of_ascii a) <$> list_ascii_of_string s.
Arguments js : simpl never.

(** [WhiteSpace] and [LineTerminator] code points of ECMAScript, the
    ones [String.prototype.trim] strips.  All lie in the basic plane. *)
Definition is_white_space (c : N) : bool :=
  (c =? 0x9) || (c =? 0xA) || (c =? 0xB) || (c =? 0xC) || (c =? 0xD)
  || (c =? 0x20) || (c =? 0xA0) || (c =? 0x1680)
  || ((0x2000 <=? c) && (c <=? 0x200A))
  || (c =? 0x2028) || (c =? 0x2029) || (c =? 0x202F) || (c =? 0x205F)
  || (c =? 0x3000) || (c =? 0xFEFF).

Fixpoint trimStart (s : jsstring) : jsstring :=
  match s with
  | c :: s' => if is_white_space c then trimStart s' else s
  | [] => []
  end.

Definition trimEnd (s : jsstring) : jsstring := reverse (trimStart (reverse s)).

(** [s.trim()] *)
Definition trim (s : jsstring) : jsstring := trimEnd (trimStart s).

(** ** Errors and completions *)

Inductive ErrorName := Error | TypeError | SyntaxError | URIError | DOMException.

(** An error object, as far as the handlers look at it: [e.message]. *)
Record JsError := mkError { name : ErrorName; message : jsstring }.

(** How a statement list ends: it falls through with a value, executes
    [return;], or throws. *)
Inductive Completion (A : Type) :=
| Normal (a : A)
| Return
| Throw (e : JsError).
Arguments Normal {A} a.
Arguments Return {A}.
Arguments Throw {A} e.

#[export] Instance Completion_ret : MRet Completion := λ A a, Normal a.
#[export] Instance Completion_bind : MBind Completion := λ A B f c,
  match c with
  | Normal a => f a
  | Return => Return
  | Throw e => Throw e
  end.

(** ** The engine

    What the handlers observe of the JavaScript engine but the language
    standard leaves to the implementation (message texts), and the
    double-precision numbers, of which the handlers use only truthiness
    and the conversion to a string. *)
Class Engine := {
  number : Type;
  number_ToBoolean : number → bool;
  number_ToString : number → jsstring;
  (** message of the [TypeError] raised by reading property [p] of [null] *)
  null_property_message : jsstring → jsstring;
  (** message of the [TypeError] raised when an object has no primitive value *)
  to_primitive_message : jsstring;
  (** message of the [URIError] raised by [encodeURIComponent] *)
  uri_malformed_message : jsstring;
}.

(** ** [encodeURIComponent] *)

Definition is_uri_unreserved (c : N) : bool :=
  ((0x41 <=? c) && (c <=? 0x5A)) || ((0x61 <=? c) && (c <=? 0x7A))
  || ((0x30 <=? c) && (c <=? 0x39))
  || bool_decide (c ∈ js "-_.!~*'()").

Definition is_leading_surrogate (c : N) : bool := (0xD800 <=? c) && (c <=? 0xDBFF).
Definition is_trailing_surrogate (c : N) : bool := (0xDC00 <=? c) && (c <=? 0xDFFF).

Definition utf8 (cp : N) : list N :=
  if cp <? 0x80 then [cp]
  else if cp <? 0x800 then
    [N.lor 0xC0 (N.shiftr cp 6); N.lor 0x80 (N.land cp 0x3F)]
  else if cp <? 0x10000 then
    [N.lor 0xE0 (N.shiftr cp 12); N.lor 0x80 (N.land (N.shiftr cp 6) 0x3F);
     N.lor 0x80 (N.land cp 0x3F)]
  else
    [N.lor 0xF0 (N.shiftr cp 18); N.lor 0x80 (N.land (N.shiftr cp 12) 0x3F);
     N.lor 0x80 (N.land (N.shiftr cp 6) 0x3F); N.lor 0x80 (N.land cp 0x3F)].

Definition hex_digit (d : N) : N := if d <? 10 then 0x30 + d else 0x41 + (d - 10).

Definition percent (octet : N) : jsstring :=
  [0x25; hex_digit (N.shiftr octet 4); hex_digit (N.land octet 0xF)].

(** The escaped text, or [None] at an unpaired surrogate. *)
Fixpoint uri_encode (s : jsstring) : option jsstring :=
  match s with
  | [] => Some []
  | c :: s' =>
    if is_uri_unreserved c then (c ::.) <$> uri_encode s'
    else if is_trailing_surrogate c then None
    else if is_leading_surrogate c then
      match s' with
      | d :: s'' =>
        if is_trailing_surrogate d then
          let cp := (c - 0xD800) * 0x400 + (d - 0xDC00) + 0x10000 in
          (λ r, mjoin (percent <$> utf8 cp) ++ r) <$> uri_encode s''
        else None
      | [] => None
      end
    else (λ r, mjoin (percent <$> utf8 c) ++ r) <$> uri_encode s'
  end.

(** The characters an escaped text is made of: the unreserved ones, the
    percent sign and the upper-case hexadecimal digits. *)
Definition is_upper_hex (c : N) : bool :=
  ((0x30 <=? c) && (c <=? 0x39)) || ((0x41 <=? c) && (c <=? 0x46)).

Definition uri_safe (c : N) : bool :=
  is_uri_unreserved c || (c =? 0x25) || is_upper_hex c.

(** Conversion to a string of Unicode scalar values, which the platform
    applies to an argument declared [USVString]: a surrogate code unit
    without its pair becomes U+FFFD. *)
Fixpoint to_usv (s : jsstring) : jsstring :=
  match s with
  | [] => []
  | c :: s' =>
    if is_leading_surrogate c then
      match s' with
      | d :: s'' =>
        if is_trailing_surrogate d then c :: d :: to_usv s''
        else 0xFFFD :: to_usv s'
      | [] => [0xFFFD]
      end
    else if is_trailing_surrogate c then 0xFFFD :: to_usv s'
    else c :: to_usv s'
  end.

(** A code unit fits in 16 bits. *)
Definition code_units (s : jsstring) : Prop := Forall (λ c, c < 0x10000) s.

(** Nothing but white space, possibly nothing at all. *)
Definition all_white_space (s : jsstring) : Prop :=
  Forall (λ c, is_white_space c = true) s.

Section Handlers.
Context `{Engine}.

Definition encodeURIComponent (s : jsstring) : Completion jsstring :=
  match uri_encode s with
  | Some r => Normal r
  | None => Throw (mkError URIError uri_malformed_message)
  end.

(** ** Values

    The values a response body parses to.  An object is the finite map
    of its own properties ([JSON.parse] keeps the last of duplicate
    keys). *)
Inductive json :=
| JNull
| JBool (b : bool)
| JNum (n : number)
| JStr (s : jsstring)
| JArr (elements : list json)
| JObj (properties : gmap jsstring json).

(** A JavaScript value in the handlers: [None] is [undefined]. *)
Abbreviation value := (option json).

(** [ToBoolean] *)
Definition ToBoolean (v : value) : bool :=
  match v with
  | None | Some JNull => false
  | Some (JBool b) => b
  | Some (JNum n) => number_ToBoolean n
  | Some (JStr s) => if s is [] then false else true
  | Some (JArr _) | Some (JObj _) => true
  end.

(** [Array.prototype.join] with separator [","] over strings already converted *)
Fixpoint join_comma (parts : list jsstring) : jsstring :=
  match parts with
  | [] => []
  | [p] => p
  | p :: ps => p ++ js "," ++ join_comma ps
  end.

(** All the parts in order, or the first abrupt completion. *)
Fixpoint sequence {A} (cs : list (Completion A)) : Completion (list A) :=
  match cs with
  | [] => mret []
  | c :: cs' => a ← c; l ← sequence cs'; mret (a :: l)
  end.

(** [ToString] of a parsed value.  An array goes through
    [Array.prototype.toString], that is [join]: [null] elements give the
    empty string.  A plain object inherits [Object.prototype.toString]
    unless an own property named [toString] shadows it; a parsed value
    is never callable, so the object then has no primitive value. *)
Fixpoint ToString_json (j : json) : Completion jsstring :=
  match j with
  | JNull => Normal (js "null")
  | JBool b => Normal (if b then js "true" else js "false")
  | JNum n => Normal (number_ToString n)
  | JStr s => Normal s
  | JArr l =>
    parts ← sequence ((λ x, if x is JNull then Normal [] else ToString_json x) <$> l);
    mret (join_comma parts)
  | JObj m =>
    match m !! js "toString" with
    | Some _ => Throw (mkError TypeError to_primitive_message)
    | None => Normal (js "[object Object]")
    end
  end.

Definition ToString (v : value) : Completion jsstring :=
  match v with
  | None => Normal (js "undefined")
  | Some j => ToString_json j
  end.

(** [prefix + v] for a string [prefix]: [v] is reduced to a primitive
    and converted to a string. *)
Definition concat (prefix : jsstring) (v : value) : Completion jsstring :=
  s ← ToString v; mret (prefix ++ s).

(** The property names the handlers read off a response body.  None of
    them is defined on [Object.prototype], [Array.prototype] or the
    prototypes of the primitive wrappers. *)
Inductive Field := error | message_ | answer | summary.

Definition field_name (f : Field) : jsstring :=
  match f with
  | error => js "error"
  | message_ => js "message"
  | answer => js "answer"
  | summary => js "summary"
  end.

(** [data.f] *)
Definition Get (data : json) (f : Field) : Completion value :=
  match data with
  | JNull => Throw (mkError TypeError (null_property_message (field_name f)))
  | JObj m => Normal (m !! field_name f)
  | JBool _ | JNum _ | JStr _ | JArr _ => Normal None
  end.

(** [l || r], with [r] a string literal *)
Definition or_else (l : value) (r : jsstring) : value :=
  if ToBoolean l then l else Some (JStr r).

(** ** The page and the network *)

Inductive Body :=
| UrlEncoded (text : jsstring)
| FormData (entries : list (jsstring * jsstring)).

Record Request := mkRequest {
  url : jsstring;
  method : jsstring;
  headers : list (jsstring * jsstring);
  body : Body;
}.

(** A response, as far as the handlers look at it: the status, from
    which [resp.ok] derives, and what [await resp.json()] completes
    with, the parsed body or the error of a body that does not parse. *)
Record Response := mkResponse {
  status : Z;
  parsed : JsError + json;
}.

(** [resp.ok]: the status is in the range 200-299 *)
Definition ok (resp : Response) : bool :=
  ((200 <=? status resp) && (status resp <=? 299))%Z.

(** How the promise of a [fetch] settles. *)
Inductive FetchOutcome :=
| Resolved (resp : Response)
| Rejected (e : JsError).

Inductive Input := RepoUrl | Question | SummaryRole | SummaryRepo.
Inductive Display := Files | SummaryBox.

(** The elements the handlers touch: [.value] of the four inputs,
    [.textContent] of the two status areas, and the text of the
    paragraphs under [#chat-box], in document order. *)
Record Document := mkDocument {
  repo_url : jsstring;
  question : jsstring;
  summary_role : jsstring;
  summary_repo : jsstring;
  files : jsstring;
  summary_box : jsstring;
  chat_box : list jsstring;
}.

Inductive Event :=
| Alert (msg : jsstring)
| SetText (el : Display) (text : jsstring)
| Append (text : jsstring)
| Fetch (req : Request).

(** [network n req] settles the request [req] issued after [n] earlier
    requests. *)
Record World := mkWorld {
  page : Document;
  trace : list Event;
  network : nat → Request → FetchOutcome;
}.

Definition is_fetch (ev : Event) : bool := if ev is Fetch _ then true else false.

Definition requests (w : World) : list Event := filter is_fetch (trace w).

Definition set_text_doc (el : Display) (s : jsstring) (d : Document) : Document :=
  match el with
  | Files =>
    mkDocument (repo_url d) (question d) (summary_role d) (summary_repo d)
               s (summary_box d) (chat_box d)
  | SummaryBox =>
    mkDocument (repo_url d) (question d) (summary_role d) (summary_repo d)
               (files d) s (chat_box d)
  end.

Definition append_doc (s : jsstring) (d : Document) : Document :=
  mkDocument (repo_url d) (question d) (summary_role d) (summary_repo d)
             (files d) (summary_box d) (chat_box d ++ [s]).

Definition record (ev : Event) (f : Document → Document) (w : World) : World :=
  mkWorld (f (page w)) (trace w ++ [ev]) (network w).

(** ** Programs *)

Definition M (A : Type) : Type := World → Completion A * World.

#[export] Instance M_ret : MRet M := λ A a w, (Normal a, w).
#[export] Instance M_bind : MBind M := λ A B f m w,
  match m w with
  | (Normal a, w') => f a w'
  | (Return, w') => (Return, w')
  | (Throw e, w') => (Throw e, w')
  end.

Definition lift {A} (c : Completion A) : M A := λ w, (c, w).

(** [throw e;] *)
Definition throw {A} (e : JsError) : M A := lift (Throw e).

(** [return;] *)
Definition return_ {A} : M A := lift Return.

(** [try { block } catch (e) { handler }] *)
Definition try_catch {A} (block : M A) (handler : JsError → M A) : M A := λ w,
  match block w with
  | (Throw e, w') => handler e w'
  | r => r
  end.

(** [if (c) { block }] *)
Definition when (c : bool) (block : M unit) : M unit :=
  if c then block else mret tt.

(** [document.getElementById(id).value] *)
Definition value_of (i : Input) : M jsstring := λ w,
  (Normal match i with
          | RepoUrl => repo_url (page w)
          | Question => question (page w)
          | SummaryRole => summary_role (page w)
          | SummaryRepo => summary_repo (page w)
          end, w).

(** [alert(msg)] *)
Definition alert (msg : jsstring) : M unit := λ w,
  (Normal tt, record (Alert msg) id w).

(** [el.textContent = s] for a string [s] *)
Definition set_text (el : Display) (s : jsstring) : M unit := λ w,
  (Normal tt, record (SetText el s) (set_text_doc el s) w).

(** [el.textContent = v] for any value: the attribute is a nullable
    string, so [null] and [undefined] empty the element and anything
    else is converted with [ToString]. *)
Definition set_textContent (el : Display) (v : value) : M unit :=
  match v with
  | None | Some JNull => set_text el []
  | _ => s ← lift (ToString v); set_text el s
  end.

(** [p = document.createElement("p"); p.textContent = s;
    chatBox.appendChild(p)] *)
Definition append_paragraph (s : jsstring) : M unit := λ w,
  (Normal tt, record (Append s) (append_doc s) w).

(** [await fetch(url, init)] *)
Definition fetch (req : Request) : M Response := λ w,
  let w' := record (Fetch req) id w in
  match network w (length (requests w)) req with
  | Resolved resp => (Normal resp, w')
  | Rejected e => (Throw e, w')
  end.

(** [await resp.json()] *)
Definition json_of (resp : Response) : M json :=
  match parsed resp with
  | inr data => mret data
  | inl e => throw e
  end.

(** The promise an [async] function returns. *)
Inductive Promise := Fulfilled | RejectedWith (e : JsError).

(** Calling an [async] function and running it to completion. *)
Definition call (f : M unit) (w : World) : Promise * World :=
  match f w with
  | (Normal _, w') | (Return, w') => (Fulfilled, w')
  | (Throw e, w') => (RejectedWith e, w')
  end.

(** ** The handlers of [static/script.js] *)

(** A string as a value, for [!s] *)
Definition str (s : jsstring) : value := Some (JStr s).

Definition ellipsis : jsstring := [0x2026].

Definition form_headers : list (jsstring * jsstring) :=
  [(js "Content-Type", js "application/x-www-form-urlencoded")].

(** The three requests of the script: url and [init] argument of [fetch]. *)
Definition load_repo_request (encoded : jsstring) : Request :=
  mkRequest (js "/load_repo") (js "POST") form_headers
            (UrlEncoded (js "repo_url=" ++ encoded)).

Definition ask_request (encoded : jsstring) : Request :=
  mkRequest (js "/ask") (js "POST") form_headers
            (UrlEncoded (js "question=" ++ encoded)).

(** [formData.append(name, value)]: both arguments are [USVString]s. *)
Definition append_entry (name value : jsstring)
    (entries : list (jsstring * jsstring)) : list (jsstring * jsstring) :=
  entries ++ [(to_usv name, to_usv value)].

Definition process_repo_request (role repoUrl : jsstring) : Request :=
  mkRequest (js "/process_repo") (js "POST") []
            (FormData (append_entry (js "repo_link") repoUrl
                         (append_entry (js "role") role []))).

Definition loadRepo : M unit :=
  v ← value_of RepoUrl;
  let repoUrl := trim v in
  when (negb (ToBoolean (str repoUrl)))
    (alert (js "Please enter a GitHub repo URL");; return_);;
  set_text Files (js "Loading repository" ++ ellipsis);;
  try_catch
    (encoded ← lift (encodeURIComponent repoUrl);
     resp ← fetch (load_repo_request encoded);
     data ← try_catch (json_of resp) (λ jsonErr, set_text Files [];; return_);
     when (negb (ok resp))
       (err ← lift (Get data error);
        text ← lift (concat (js "Error: ")
                            (or_else err (js "Failed to load repository")));
        set_text Files text;; return_);;
     msg ← lift (Get data message_);
     set_textContent Files msg)
    (λ e, set_text Files (js "Error: " ++ message e)).

Definition askQuestion : M unit :=
  v ← value_of Question;
  let q := trim v in
  when (negb (ToBoolean (str q)))
    (alert (js "Please enter a question");; return_);;
  append_paragraph (js "You: " ++ q);;
  try_catch
    (encoded ← lift (encodeURIComponent q);
     resp ← fetch (ask_request encoded);
     when (negb (ok resp)) (throw (mkError Error (js "Failed to get answer")));;
     data ← json_of resp;
     ans ← lift (Get data answer);
     text ← lift (concat (js "Bot: ") ans);
     append_paragraph text)
    (λ e, append_paragraph (js "Error: " ++ message e)).

Definition generateSummary : M unit :=
  v1 ← value_of SummaryRole;
  let role := trim v1 in
  v2 ← value_of SummaryRepo;
  let repoUrl := trim v2 in
  when (negb (ToBoolean (str repoUrl)) || negb (ToBoolean (str role)))
    (set_text SummaryBox (js "Please enter both repo URL and role.");; return_);;
  set_text SummaryBox (js "Generating summary" ++ ellipsis);;
  try_catch
    (resp ← fetch (process_repo_request role repoUrl);
     data ← try_catch (json_of resp)
              (λ jsonErr,
                 set_text SummaryBox
                   (js "Error: Unexpected response. Please check the backend.");;
                 return_);
     when (negb (ok resp))
       (err ← lift (Get data error);
        text ← lift (concat (js "Error: ") (or_else err (js "Failed")));
        set_text SummaryBox text;; return_);;
     s ← lift (Get data summary);
     set_textContent SummaryBox s)
    (λ e, set_text SummaryBox (js "Error: " ++ message e)).

(** The three operations of the controller and their handlers. *)
Inductive Operation := LoadRepository | AskQuestion | GenerateSummary.

Definition handler (op : Operation) : M unit :=
  match op with
  | LoadRepository => loadRepo
  | AskQuestion => askQuestion
  | GenerateSummary => generateSummary
  end.

(** The world a handler leaves behind. *)
Definition after (f : M unit) (w : World) : World := (call f w).2.

(** The operator types [s] into the input [i]. *)
Definition type_into (i : Input) (s : jsstring) (w : World) : World :=
  let d := page w in
  mkWorld
    match i with
    | RepoUrl =>
      mkDocument s (question d) (summary_role d) (summary_repo d)
                 (files d) (summary_box d) (chat_box d)
    | Question =>
      mkDocument (repo_url d) s (summary_role d) (summary_repo d)
                 (files d) (summary_box d) (chat_box d)
    | SummaryRole =>
      mkDocument (repo_url d) (question d) s (summary_repo d)
                 (files d) (summary_box d) (chat_box d)
    | SummaryRepo =>
      mkDocument (repo_url d) (question d) (summary_role d) s
                 (files d) (summary_box d) (chat_box d)
    end
    (trace w) (network w).

(** An input is blank when nothing is left of it after trimming. *)
Definition blank (s : jsstring) : Prop := trim s = [].

(** The operation lacks a required input. *)
Definition input_missing (op : Operation) (w : World) : Prop :=
  match op with
  | LoadRepository => blank (repo_url (page w))
  | AskQuestion => blank (question (page w))
  | GenerateSummary => blank (summary_repo (page w)) ∨ blank (summary_role (page w))
  end.

#[export] Instance input_missing_dec op w : Decision (input_missing op w).
Proof. destruct op; unfold input_missing, blank; apply _. Defined.

(** The validation notice of each operation: a blocking alert, or the
    inline guidance text in the summary box. *)
Definition notice (op : Operation) : Event :=
  match op with
  | LoadRepository => Alert (js "Please enter a GitHub repo URL")
  | AskQuestion => Alert (js "Please enter a question")
  | GenerateSummary => SetText SummaryBox (js "Please enter both repo URL and role.")
  end.

(** The event writes to the display target of the operation: its status
    area, or the message log. *)
Definition writes_outcome (op : Operation) (ev : Event) : Prop :=
  match op, ev with
  | LoadRepository, SetText Files _ => True
  | AskQuestion, Append _ => True
  | GenerateSummary, SetText SummaryBox _ => True
  | _, _ => False
  end.

(** The write of [text] to the display target of the operation. *)
Definition write (op : Operation) (text : jsstring) : Event :=
  match op with
  | LoadRepository => SetText Files text
  | AskQuestion => Append text
  | GenerateSummary => SetText SummaryBox text
  end.

(** What the display target of the operation shows: the text of its
    status area, or the last entry of the message log. *)
Definition shown (op : Operation) (d : Document) : option jsstring :=
  match op with
  | LoadRepository => Some (files d)
  | AskQuestion => last (chat_box d)
  | GenerateSummary => Some (summary_box d)
  end.

(** How the request of a run started in [w] settles; [None] when the
    request cannot be built because the input cannot be escaped. *)
Definition settled (op : Operation) (w : World) : option FetchOutcome :=
  match op with
  | LoadRepository =>
    (λ encoded, network w (length (requests w)) (load_repo_request encoded))
      <$> uri_encode (trim (repo_url (page w)))
  | AskQuestion =>
    (λ encoded, network w (length (requests w)) (ask_request encoded))
      <$> uri_encode (trim (question (page w)))
  | GenerateSummary =>
    Some (network w (length (requests w))
            (process_repo_request (trim (summary_role (page w)))
                                  (trim (summary_repo (page w)))))
  end.

(** A text that tells the operator of an error. *)
Definition is_error (text : jsstring) : Prop := ∃ s, text = js "Error: " ++ s.

(** What the display shows of each kind of failure.  A request that
    cannot be built, a transport failure, a non-success status with a
    body that parses, and for [askQuestion] and [generateSummary] any
    body that does not parse, show an error text.  [loadRepo] empties
    its display on a success status whose body does not parse; nothing
    is said here of its display on a non-success status whose body does
    not parse. *)
Definition failure_reported (op : Operation) (o : option FetchOutcome)
    (text : jsstring) : Prop :=
  match o with
  | None | Some (Rejected _) => is_error text
  | Some (Resolved resp) =>
    match parsed resp, op with
    | inl _, LoadRepository => if ok resp then text = [] else True
    | inl _, _ => is_error text
    | inr _, _ => if ok resp then True else is_error text
    end
  end.

(** An entry of the message log that answers a question. *)
Definition is_reply (entry : jsstring) : Prop :=
  (∃ s, entry = js "Bot: " ++ s) ∨ (∃ s, entry = js "Error: " ++ s).

(** The own property [f] of a parsed body; none unless the body is an
    object. *)
Definition field (data : json) (f : Field) : option json :=
  if data is JObj m then m !! field_name f else None.

(** What the input [i] holds. *)
Definition input_value (i : Input) (d : Document) : jsstring :=
  match i with
  | RepoUrl => repo_url d
  | Question => question d
  | SummaryRole => summary_role d
  | SummaryRepo => summary_repo d
  end.

(** The operator asks the questions [qs] one after the other: each is
    typed into [#question] and the ask button clicked, the next one
    once the run before it has finished. *)
Definition ask_each (qs : list jsstring) (w : World) : World :=
  foldl (λ w q, after askQuestion (type_into Question q w)) w qs.

(** The path each operation posts to. *)
Definition endpoint (op : Operation) : jsstring :=
  match op with
  | LoadRepository => js "/load_repo"
  | AskQuestion => js "/ask"
  | GenerateSummary => js "/process_repo"
  end.

(** The request settles without a body that fails to parse: the
    transport fails, or the body of the response is JSON. *)
Definition body_parses (o : FetchOutcome) : Prop :=
  match o with
  | Resolved resp => ∃ data, parsed resp = inr data
  | Rejected _ => True
  end.

(** *** When a response arrives

    [loadRepo], started in [w], sends its request and [resp] comes back:
    the repository URL is not blank, it is well-formed UTF-16, and the
    network resolves the request with [resp]. *)
Definition load_repo_responds (w : World) (resp : Response) : Prop :=
  trim (repo_url (page w)) ≠ [] ∧
  ∃ encoded, uri_encode (trim (repo_url (page w))) = Some encoded ∧
    network w (length (requests w)) (load_repo_request encoded) = Resolved resp.

(** Likewise for [askQuestion]. *)
Definition ask_responds (w : World) (resp : Response) : Prop :=
  trim (question (page w)) ≠ [] ∧
  ∃ encoded, uri_encode (trim (question (page w))) = Some encoded ∧
    network w (length (requests w)) (ask_request encoded) = Resolved resp.

(** [generateSummary], started in [w], sends its request and [resp]
    comes back: neither input is blank and the network resolves the
    request with [resp]. *)
Definition process_repo_responds (w : World) (resp : Response) : Prop :=
  trim (summary_role (page w)) ≠ [] ∧ trim (summary_repo (page w)) ≠ [] ∧
  network w (length (requests w))
    (process_repo_request (trim (summary_role (page w)))
                          (trim (summary_repo (page w)))) = Resolved resp.

End Handlers.

(** ** The second copy of the script

    The repository holds a second copy of the script, whose [loadRepo]
    tests the status before it reads the body ([askQuestion] is the same
    in both copies). *)
Module Part000.
Section Handlers.
Context `{Engine}.

Definition loadRepo : M unit :=
  v ← value_of RepoUrl;
  let repoUrl := trim v in
  when (negb (ToBoolean (str repoUrl)))
    (alert (js "Please enter a GitHub repo URL");; return_);;
  set_text Files (js "Loading repository" ++ ellipsis);;
  try_catch
    (encoded ← lift (encodeURIComponent repoUrl);
     resp ← fetch (load_repo_request encoded);
     when (negb (ok resp)) (throw (mkError Error (js "Failed to load repo")));;
     data ← json_of resp;
     msg ← lift (Get data message_);
     set_textContent Files msg)
    (λ e, set_text Files (js "Error: " ++ message e)).

(** [generateSummary] of the second copy: the body is read outside any
    inner [try], and a non-success status throws
    [new Error(data.error || "Failed")], whose message is the argument
    converted to a string. *)
Definition generateSummary : M unit :=
  v1 ← value_of SummaryRole;
  let role := trim v1 in
  v2 ← value_of SummaryRepo;
  let repoUrl := trim v2 in
  when (negb (ToBoolean (str repoUrl)) || negb (ToBoolean (str role)))
    (set_text SummaryBox (js "Please enter both repo URL and role.");; return_);;
  set_text SummaryBox (js "Generating summary" ++ ellipsis);;
  try_catch
    (resp ← fetch (process_repo_request role repoUrl);
     data ← json_of resp;
     when (negb (ok resp))
       (err ← lift (Get data error);
        msg ← lift (ToString (or_else err (js "Failed")));
        throw (mkError Error msg));;
     s ← lift (Get data summary);
     set_textContent SummaryBox s)
    (λ e, set_text SummaryBox (js "Error: " ++ message e)).

End Handlers.
End Part000.

(** ** A sample engine

    Message texts as V8 words them; the numbers are the integers, printed
    in decimal.  Used to run the handlers on concrete pages. *)
Module Sample.

Definition decimal (z : Z) : jsstring :=
  js (pretty z).

#[export] Instance engine : Engine := {|
  number := Z;
  number_ToBoolean z := negb (z =? 0)%Z;
  number_ToString := decimal;
  null_property_message p :=
    js "Cannot read properties of null (reading '" ++ p ++ js "')";
  to_primitive_message := js "Cannot convert object to primitive value";
  uri_malformed_message := js "URI malformed";
|}.

(** A freshly loaded page [d] and a network that settles every request
    with [outcome]. *)
Definition world (d : Document) (outcome : FetchOutcome) : World :=
  mkWorld d [] (λ _ _, outcome).

(** A repository URL typed with stray spaces around it. *)
Definition repo_page : Document :=
  mkDocument (js "  https://github.com/octocat/Hello-World ") [] [] [] [] [] [].

(** Nothing typed at all, and only white space typed. *)
Definition empty_page : Document := mkDocument [] [] [] [] [] [] [].
Definition spaces_page : Document :=
  mkDocument (js "   ") [0x20; 0x9; 0xA0] (js " ") [] [] [] [].

Definition question_page : Document :=
  mkDocument [] (js "What does main.py do?") [] [] [] [] [].

Definition summary_page : Document :=
  mkDocument [] [] (js "backend developer")
             (js "https://github.com/octocat/Hello-World") [] [] [].

(** What [resp.json()] rejects with when the body is an HTML error page. *)
Definition html_body : JsError :=
  mkError SyntaxError (js "Unexpected token < in JSON at position 0").

Definition object (fields : list (jsstring * json)) : json :=
  JObj (list_to_map fields).

(** A question with an accented letter and a character outside the
    basic plane, typed as its surrogate pair. *)
Definition accent_page : Document :=
  mkDocument [] (js " Caf" ++ [0xE9; 0x20; 0xD83D; 0xDE00] ++ js "? ") [] [] [] [] [].

(** Inputs that end in a leading surrogate without its pair. *)
Definition surrogate_page : Document :=
  mkDocument (js "https://github.com/octocat/" ++ [0xD83D])
             (js "What is " ++ [0xD83D]) [] [] [] [] [].

Definition offline : FetchOutcome :=
  Rejected (mkError TypeError (js "Failed to fetch")).

End Sample.

(** * Properties *)

(** ** Running a handler symbolically *)

Ltac unfold_program :=
  unfold after, call, handler, loadRepo, askQuestion, generateSummary,
    mbind, M_bind, mret, M_ret, lift, throw, return_, try_catch, when,
    value_of, alert, set_text, set_textContent, append_paragraph, fetch,
    json_of, encodeURIComponent.

Ltac simp :=
  cbn -[js trim uri_encode requests ToString ToString_json Get concat or_else ok
        ellipsis load_repo_request ask_request process_repo_request].

(** Closes a path of a run: the world reached is the one stated, with
    no request ([evs] empty) or one request between the first and the
    last write. *)
Ltac close_path :=
  first [ eexists _, []; unfold record; simp; rewrite <- ?app_assoc;
          split; [reflexivity | by left]
        | eexists _, [_]; unfold record; simp; rewrite <- ?app_assoc;
          split; [reflexivity | right; eauto] ].

Section Properties.
Context `{Engine}.

(** ** Bookkeeping of the trace *)

Lemma requests_record ev f w :
  is_fetch ev = false → requests (record ev f w) = requests w.
Proof.
  intros Hev. unfold requests, record. cbn.
  rewrite filter_app. cbn. rewrite Hev. cbn. apply app_nil_r.
Qed.

(** ** Conversions never execute [return] *)

Lemma sequence_no_return {A} (cs : list (Completion A)) :
  Forall (λ c, c ≠ Return) cs → sequence cs ≠ Return.
Proof.
  induction 1 as [|c cs Hc _ IH]; [done|].
  cbn. destruct c; [|done..]. cbn.
  destruct (sequence cs); done.
Qed.

Fixpoint ToString_json_no_return (j : json) {struct j} : ToString_json j ≠ Return.
Proof.
  destruct j as [| b | n | s | l | m]; cbn; try done.
  - assert (Forall (λ c : Completion jsstring, c ≠ Return)
              ((λ x, if x is JNull then Normal [] else ToString_json x) <$> l))
      as Hall.
    { induction l as [|x l IH]; cbn; constructor; [|exact IH].
      pose proof (ToString_json_no_return x) as Hx. by destruct x. }
    apply sequence_no_return in Hall.
    destruct (sequence _); done.
  - destruct (m !! js "toString"); done.
Qed.

Lemma concat_no_return prefix v : concat prefix v ≠ Return.
Proof.
  unfold concat. destruct v as [j|]; cbn; [|done].
  pose proof (ToString_json_no_return j). by destruct (ToString_json j).
Qed.

Lemma ToString_no_return v : ToString v ≠ Return.
Proof. destruct v; [apply ToString_json_no_return|done]. Qed.

Lemma Get_no_return data f : Get data f ≠ Return.
Proof. by destruct data. Qed.

(** ** LoadRepository, path by path *)

Lemma loadRepo_unparseable w resp e :
  load_repo_responds w resp → parsed resp = inl e →
  ∃ req,
    call loadRepo w =
      (Fulfilled,
       mkWorld (set_text_doc Files [] (page w))
               (trace w ++ [SetText Files (js "Loading repository" ++ ellipsis);
                            Fetch req; SetText Files []])
               (network w)).
Proof.
  intros (Hurl & encoded & Henc & Hnet) Hparsed.
  exists (load_repo_request encoded).
  unfold_program. simp.
  destruct (trim (repo_url (page w))) as [|c s] eqn:Htrim; [done|]. simp.
  rewrite Henc, requests_record, Hnet by done. simp.
  rewrite Hparsed. simp.
  unfold record; simp. by rewrite <- !app_assoc.
Qed.

Lemma loadRepo_error_status w resp data v text :
  load_repo_responds w resp → parsed resp = inr data → ok resp = false →
  Get data error = Normal v →
  concat (js "Error: ") (or_else v (js "Failed to load repository")) = Normal text →
  ∃ req,
    call loadRepo w =
      (Fulfilled,
       mkWorld (set_text_doc Files text (page w))
               (trace w ++ [SetText Files (js "Loading repository" ++ ellipsis);
                            Fetch req; SetText Files text])
               (network w)).
Proof.
  intros (Hurl & encoded & Henc & Hnet) Hparsed Hok Hget Hconcat.
  exists (load_repo_request encoded).
  unfold_program. simp.
  destruct (trim (repo_url (page w))) as [|c s] eqn:Htrim; [done|]. simp.
  rewrite Henc, requests_record, Hnet by done. simp.
  rewrite Hparsed, Hok. simp.
  rewrite Hget, Hconcat. simp.
  unfold record; simp. by rewrite <- !app_assoc.
Qed.

Lemma loadRepo_message w resp data s :
  load_repo_responds w resp → parsed resp = inr data → ok resp = true →
  Get data message_ = Normal (Some (JStr s)) →
  ∃ req,
    call loadRepo w =
      (Fulfilled,
       mkWorld (set_text_doc Files s (page w))
               (trace w ++ [SetText Files (js "Loading repository" ++ ellipsis);
                            Fetch req; SetText Files s])
               (network w)).
Proof.
  intros (Hurl & encoded & Henc & Hnet) Hparsed Hok Hget.
  exists (load_repo_request encoded).
  unfold_program. simp.
  destruct (trim (repo_url (page w))) as [|c t] eqn:Htrim; [done|]. simp.
  rewrite Henc, requests_record, Hnet by done. simp.
  rewrite Hparsed, Hok. simp.
  rewrite Hget. unfold_program. unfold record. cbn -[js ellipsis].
  by rewrite <- !app_assoc.
Qed.

Lemma Get_field data f :
  data ≠ JNull → Get data f = Normal (field data f).
Proof. by destruct data. Qed.

(** ** LoadRepository *)

(** C2: when the response to [/load_repo] has a success status and a
    body that is not parseable as JSON, [loadRepo] ends normally with
    [#files] emptied; nothing else on the page changes and the only
    effects are the placeholder, the request and the clearing write: no
    alert and no error text. *)
Theorem loadRepo_success_unparseable_clears w resp e :
  load_repo_responds w resp → ok resp = true → parsed resp = inl e →
  (call loadRepo w).1 = Fulfilled ∧
  files (page (after loadRepo w)) = [] ∧
  page (after loadRepo w) = set_text_doc Files [] (page w) ∧
  ∃ req, trace (after loadRepo w) =
    trace w ++ [SetText Files (js "Loading repository" ++ ellipsis);
                Fetch req; SetText Files []].
Proof.
  intros Hresp _ Hparsed.
  destruct (loadRepo_unparseable w resp e Hresp Hparsed) as [req Hrun].
  unfold after. rewrite Hrun. simp. eauto.
Qed.

(** C4, amended: when the response to [/load_repo] has a non-success
    status and its body parses as JSON other than [null], [loadRepo]
    shows ["Error: "] followed by the [error] field when that field is
    a non-empty string, and ["Error: Failed to load repository"] when
    the field is absent or the empty string. *)
Theorem loadRepo_error_status_display w resp data :
  load_repo_responds w resp → ok resp = false → parsed resp = inr data →
  data ≠ JNull →
  (field data error = None ∨ ∃ s, field data error = Some (JStr s)) →
  files (page (after loadRepo w)) =
    js "Error: " ++
    match field data error with
    | Some (JStr (c :: s)) => c :: s
    | _ => js "Failed to load repository"
    end.
Proof.
  intros Hresp Hok Hparsed Hnull Hfield.
  set (v := field data error) in *.
  assert (∃ text,
    concat (js "Error: ") (or_else v (js "Failed to load repository")) = Normal text ∧
    text = js "Error: " ++
           match v with
           | Some (JStr (c :: s)) => c :: s
           | _ => js "Failed to load repository"
           end) as (text & Hconcat & ->).
  { destruct Hfield as [-> | [[|c s] ->]]; eexists; (split; [reflexivity|done]). }
  destruct (loadRepo_error_status w resp data v _ Hresp Hparsed Hok
              (Get_field _ _ Hnull) Hconcat) as [req Hrun].
  unfold after. by rewrite Hrun.
Qed.

(** C6: when the response to [/load_repo] has a success status and its
    body parses as JSON carrying a [message] string, [loadRepo] ends
    normally and [#files] shows that string verbatim. *)
Theorem loadRepo_success_shows_message w resp data s :
  load_repo_responds w resp → ok resp = true → parsed resp = inr data →
  field data message_ = Some (JStr s) →
  (call loadRepo w).1 = Fulfilled ∧ files (page (after loadRepo w)) = s.
Proof.
  intros Hresp Hok Hparsed Hfield.
  assert (Get data message_ = Normal (Some (JStr s))) as Hget.
  { rewrite Get_field; [by rewrite Hfield|]. by intros ->. }
  destruct (loadRepo_message w resp data s Hresp Hparsed Hok Hget) as [req Hrun].
  unfold after. by rewrite Hrun.
Qed.

(** Every run on a repository URL that is not blank ends normally; the
    page differs from the initial one in [#files] only, and the effects
    are the placeholder, at most one request, and a last write to
    [#files]. *)
Lemma loadRepo_runs w :
  trim (repo_url (page w)) ≠ [] →
  ∃ text evs,
    call loadRepo w =
      (Fulfilled,
       mkWorld (set_text_doc Files text (page w))
               (trace w ++
                  SetText Files (js "Loading repository" ++ ellipsis)
                  :: evs ++ [SetText Files text])
               (network w)) ∧
    (evs = [] ∨ ∃ req, evs = [Fetch req]).
Proof.
  intros Hurl. unfold_program. simp.
  destruct (trim (repo_url (page w))) as [|c u] eqn:Htrim; [done|]. simp.
  destruct (uri_encode (c :: u)) as [encoded|]; simp; [|close_path].
  rewrite requests_record by done.
  destruct (network w _ _) as [resp | e]; simp; [|close_path].
  destruct (parsed resp) as [e | data]; simp; [close_path|].
  destruct (ok resp); simp.
  - pose proof (Get_no_return data message_) as Hget.
    destruct (Get data message_) as [msg | | e]; [|done|]; simp; [|close_path].
    pose proof (ToString_no_return msg) as Hstr.
    destruct msg as [[]|]; unfold_program; simp; try close_path;
      destruct (ToString _) as [text | | e]; try done; simp; close_path.
  - pose proof (Get_no_return data error) as Hget.
    destruct (Get data error) as [err | | e]; [|done|]; simp; [|close_path].
    pose proof (concat_no_return (js "Error: ")
                  (or_else err (js "Failed to load repository"))) as Hconcat.
    destruct (concat _ _) as [text | | e]; [|done|]; simp; close_path.
Qed.

(** The sibling paths test the status first: on a non-success status
    the second copy of [loadRepo] reports an error whatever the body
    is, and so does [askQuestion]. *)
Lemma Part000_loadRepo_error_status w resp :
  load_repo_responds w resp → ok resp = false →
  files (page (after Part000.loadRepo w)) = js "Error: Failed to load repo".
Proof.
  intros (Hurl & encoded & Henc & Hnet) Hok.
  unfold Part000.loadRepo. unfold_program. simp.
  destruct (trim (repo_url (page w))) as [|c s] eqn:Htrim; [done|]. simp.
  rewrite Henc, requests_record, Hnet by done. simp.
  by rewrite Hok.
Qed.

Lemma askQuestion_error_status w resp :
  ask_responds w resp → ok resp = false →
  chat_box (page (after askQuestion w)) =
    chat_box (page w) ++
      [js "You: " ++ trim (question (page w)); js "Error: Failed to get answer"].
Proof.
  intros (Hq & encoded & Henc & Hnet) Hok.
  unfold_program. simp.
  destruct (trim (question (page w))) as [|c s] eqn:Htrim; [done|]. simp.
  rewrite Henc, requests_record, Hnet by done. simp.
  rewrite Hok. simp. by rewrite <- app_assoc.
Qed.

(** ** GenerateSummary *)


Lemma generateSummary_unparseable w resp e :
  process_repo_responds w resp → parsed resp = inl e →
  ∃ req,
    call generateSummary w =
      (Fulfilled,
       mkWorld
         (set_text_doc SummaryBox
            (js "Error: Unexpected response. Please check the backend.") (page w))
         (trace w ++
            [SetText SummaryBox (js "Generating summary" ++ ellipsis);
             Fetch req;
             SetText SummaryBox
               (js "Error: Unexpected response. Please check the backend.")])
         (network w)).
Proof.
  intros (Hrole & Hrepo & Hnet) Hparsed.
  exists (process_repo_request (trim (summary_role (page w)))
                               (trim (summary_repo (page w)))).
  unfold_program. simp.
  destruct (trim (summary_role (page w))) as [|c s] eqn:Htrim; [done|].
  destruct (trim (summary_repo (page w))) as [|c' s'] eqn:Htrim'; [done|]. simp.
  rewrite requests_record, Hnet by done. simp.
  rewrite Hparsed. simp.
  unfold record; simp. by rewrite <- !app_assoc.
Qed.

(** C8: when the response to [/process_repo] has a success status and a
    body that is not parseable as JSON, [generateSummary] shows the
    explicit text ["Error: Unexpected response. Please check the
    backend."] in [#summary-box]; the box is not left empty. *)
Theorem generateSummary_success_unparseable_reports w resp e :
  process_repo_responds w resp → ok resp = true → parsed resp = inl e →
  (call generateSummary w).1 = Fulfilled ∧
  summary_box (page (after generateSummary w)) =
    js "Error: Unexpected response. Please check the backend." ∧
  summary_box (page (after generateSummary w)) ≠ [].
Proof.
  intros Hresp _ Hparsed.
  destruct (generateSummary_unparseable w resp e Hresp Hparsed) as [req Hrun].
  unfold after. rewrite Hrun. simp. done.
Qed.

(** C10: when the body of the response to [/process_repo] is not
    parseable as JSON, [generateSummary] shows exactly ["Error:
    Unexpected response. Please check the backend."], whatever the
    status; that write is the only one after the request, so the branch
    on the status is not taken. *)
Theorem generateSummary_unparseable_any_status w resp e :
  process_repo_responds w resp → parsed resp = inl e →
  summary_box (page (after generateSummary w)) =
    js "Error: Unexpected response. Please check the backend." ∧
  ∃ req, trace (after generateSummary w) =
    trace w ++
      [SetText SummaryBox (js "Generating summary" ++ ellipsis);
       Fetch req;
       SetText SummaryBox (js "Error: Unexpected response. Please check the backend.")].
Proof.
  intros Hresp Hparsed.
  destruct (generateSummary_unparseable w resp e Hresp Hparsed) as [req Hrun].
  unfold after. rewrite Hrun. simp. eauto.
Qed.

(** Every run with both inputs filled in ends normally; the page differs
    from the initial one in [#summary-box] only. *)
Lemma generateSummary_runs w :
  trim (summary_role (page w)) ≠ [] → trim (summary_repo (page w)) ≠ [] →
  ∃ text evs,
    call generateSummary w =
      (Fulfilled,
       mkWorld (set_text_doc SummaryBox text (page w))
               (trace w ++
                  SetText SummaryBox (js "Generating summary" ++ ellipsis)
                  :: evs ++ [SetText SummaryBox text])
               (network w)) ∧
    (evs = [] ∨ ∃ req, evs = [Fetch req]).
Proof.
  intros Hrole Hrepo. unfold_program. simp.
  destruct (trim (summary_role (page w))) as [|c r] eqn:Htrim; [done|].
  destruct (trim (summary_repo (page w))) as [|c' u] eqn:Htrim'; [done|]. simp.
  rewrite requests_record by done.
  destruct (network w _ _) as [resp | e]; simp; [|close_path].
  destruct (parsed resp) as [e | data]; simp; [close_path|].
  destruct (ok resp); simp.
  - pose proof (Get_no_return data summary) as Hget.
    destruct (Get data summary) as [msg | | e]; [|done|]; simp; [|close_path].
    pose proof (ToString_no_return msg) as Hstr.
    destruct msg as [[]|]; unfold_program; simp; try close_path;
      destruct (ToString _) as [text | | e]; try done; simp; close_path.
  - pose proof (Get_no_return data error) as Hget.
    destruct (Get data error) as [err | | e]; [|done|]; simp; [|close_path].
    pose proof (concat_no_return (js "Error: ") (or_else err (js "Failed")))
      as Hconcat.
    destruct (concat _ _) as [text | | e]; [|done|]; simp; close_path.
Qed.

(** ** AskQuestion *)

(** Every run on a question that is not blank: the question is logged
    first, at most one request follows, and one reply entry closes the
    run. *)
Lemma askQuestion_runs w :
  trim (question (page w)) ≠ [] →
  ∃ reply evs,
    call askQuestion w =
      (Fulfilled,
       mkWorld
         (append_doc reply
            (append_doc (js "You: " ++ trim (question (page w))) (page w)))
         (trace w ++
            Append (js "You: " ++ trim (question (page w))) :: evs ++ [Append reply])
         (network w)) ∧
    is_reply reply ∧ (evs = [] ∨ ∃ req, evs = [Fetch req]).
Proof.
  intros Hq. unfold_program. simp.
  destruct (trim (question (page w))) as [|c q] eqn:Htrim; [done|]. simp.
  set (you := js "You: " ++ c :: q).
  destruct (uri_encode (c :: q)) as [encoded|]; simp.
  2:{ eexists _, []. unfold record; simp. rewrite <- !app_assoc.
      split; [done|]. split; [right; eauto | by left]. }
  rewrite requests_record by done.
  destruct (network w _ _) as [resp | e]; simp.
  2:{ eexists _, [_]. unfold record; simp. rewrite <- !app_assoc.
      split; [done|]. split; [right; eauto | right; eauto]. }
  destruct (ok resp); simp.
  2:{ eexists _, [_]. unfold record; simp. rewrite <- !app_assoc.
      split; [done|]. split; [right; eauto | right; eauto]. }
  destruct (parsed resp) as [e | data]; simp.
  { eexists _, [_]. unfold record; simp. rewrite <- !app_assoc.
    split; [done|]. split; [right; eauto | right; eauto]. }
  pose proof (Get_no_return data answer) as Hget.
  destruct (Get data answer) as [ans | | e]; [|done|]; simp.
  2:{ eexists _, [_]. unfold record; simp. rewrite <- !app_assoc.
      split; [done|]. split; [right; eauto | right; eauto]. }
  pose proof (concat_no_return (js "Bot: ") ans) as Hconcat.
  destruct (concat (js "Bot: ") ans) as [text | | e] eqn:Htext; [|done|]; simp.
  2:{ eexists _, [_]. unfold record; simp. rewrite <- !app_assoc.
      split; [done|]. split; [right; eauto | right; eauto]. }
  eexists _, [_]. unfold record; simp. rewrite <- !app_assoc.
  split; [done|]. split; [|right; eauto].
  left. unfold concat in Htext.
  destruct (ToString ans) as [t | |]; cbn -[js] in Htext; [|done..].
  injection Htext as <-. eauto.
Qed.

(** C3: for every question that is not blank after trimming,
    [askQuestion] appends the entry ["You: " + question] to the message
    log as the first effect of the run, ahead of the request when one is
    sent, and the entry is in the log at the end of the run however the
    network call settles. *)
Theorem askQuestion_logs_question_first w :
  trim (question (page w)) ≠ [] →
  let you := js "You: " ++ trim (question (page w)) in
  ∃ reply,
    chat_box (page (after askQuestion w)) = chat_box (page w) ++ [you; reply] ∧
    (trace (after askQuestion w) = trace w ++ [Append you; Append reply] ∨
     ∃ req, trace (after askQuestion w) =
              trace w ++ [Append you; Fetch req; Append reply]).
Proof.
  intros Hq you.
  destruct (askQuestion_runs w Hq) as (reply & evs & Hrun & _ & Hevs).
  unfold after. rewrite Hrun. simp.
  exists reply. split; [by rewrite <- app_assoc|].
  destruct Hevs as [-> | [req ->]]; [by left | right; by exists req].
Qed.

(** C7: two [askQuestion] runs one after the other, each on a question
    that is not blank, add exactly four entries to the message log, in
    call order: the first question, its reply, the second question, its
    reply, where a reply starts with ["Bot: "] or ["Error: "]. *)
Theorem askQuestion_twice_four_entries w q2 :
  trim (question (page w)) ≠ [] → trim q2 ≠ [] →
  let w1 := after askQuestion w in
  let w2 := after askQuestion (type_into Question q2 w1) in
  ∃ r1 r2,
    chat_box (page w2) =
      chat_box (page w) ++
        [js "You: " ++ trim (question (page w)); r1; js "You: " ++ trim q2; r2] ∧
    is_reply r1 ∧ is_reply r2.
Proof.
  intros Hq1 Hq2 w1 w2.
  destruct (askQuestion_runs w Hq1) as (r1 & evs1 & Hrun1 & Hr1 & _).
  assert (trim (question (page (type_into Question q2 w1))) ≠ []) as Hq2' by done.
  destruct (askQuestion_runs _ Hq2') as (r2 & evs2 & Hrun2 & Hr2 & _).
  exists r1, r2. split; [|done].
  unfold w2, after. rewrite Hrun2. simp.
  unfold w1, after. rewrite Hrun1. simp.
  by rewrite <- !app_assoc.
Qed.

(** ** All three operations *)

(** A run that lacks an input stops at the validation notice. *)
Lemma handler_input_missing op w :
  input_missing op w →
  call (handler op) w =
    (Fulfilled,
     mkWorld
       match op with
       | GenerateSummary =>
         set_text_doc SummaryBox (js "Please enter both repo URL and role.") (page w)
       | _ => page w
       end
       (trace w ++ [notice op]) (network w)).
Proof.
  destruct op; unfold input_missing, blank; unfold_program; simp.
  - by intros ->.
  - by intros ->.
  - intros [-> | ->]; [done|].
    by destruct (trim (summary_repo (page w))).
Qed.

(** C5: when a required input is empty or blank after trimming, the
    operation ends normally having signalled its validation notice and
    nothing else, and no request is issued: [loadRepo] and
    [askQuestion] raise their alert and leave the page as it was,
    [generateSummary] writes the guidance text to [#summary-box]. *)
Theorem blank_input_only_notice op w :
  input_missing op w →
  (call (handler op) w).1 = Fulfilled ∧
  trace (after (handler op) w) = trace w ++ [notice op] ∧
  requests (after (handler op) w) = requests w ∧
  page (after (handler op) w) =
    match op with
    | GenerateSummary =>
      set_text_doc SummaryBox (js "Please enter both repo URL and role.") (page w)
    | _ => page w
    end.
Proof.
  intros Hmissing. unfold after.
  rewrite (handler_input_missing op w Hmissing). simp.
  repeat split; try done.
  unfold requests. simp. rewrite filter_app.
  destruct op; simp; apply app_nil_r.
Qed.

(** *** Every run that has its inputs ends in a write that tells of failures *)

Lemma concat_prefix prefix v text :
  concat prefix v = Normal text → ∃ s, text = prefix ++ s.
Proof.
  unfold concat. destruct (ToString v) as [s | |]; cbn; [|done..].
  intros [= <-]. by exists s.
Qed.

Ltac report :=
  eexists _, _;
  (split; [unfold record; simp; rewrite <- ?app_assoc; reflexivity|]);
  (split; [reflexivity|]);
  simp; unfold is_error; repeat case_match; eauto using concat_prefix.

Lemma loadRepo_reports w :
  trim (repo_url (page w)) ≠ [] →
  ∃ evs text,
    call loadRepo w =
      (Fulfilled,
       mkWorld (set_text_doc Files text (page w)) (trace w ++ evs) (network w)) ∧
    last evs = Some (SetText Files text) ∧
    failure_reported LoadRepository (settled LoadRepository w) text.
Proof.
  intros Hurl. unfold failure_reported, settled. unfold_program. simp.
  destruct (trim (repo_url (page w))) as [|c u] eqn:Htrim; [done|]. simp.
  destruct (uri_encode (c :: u)) as [encoded|]; simp; [|report].
  rewrite requests_record by done.
  destruct (network w _ _) as [resp | e]; simp; [|report].
  destruct (parsed resp) as [e | data]; simp; [report|].
  destruct (ok resp); simp.
  - pose proof (Get_no_return data message_) as Hget.
    destruct (Get data message_) as [msg | | e]; [|done|]; simp; [|report].
    pose proof (ToString_no_return msg) as Hstr.
    destruct msg as [[]|]; unfold_program; simp; try report;
      destruct (ToString _) as [text | | e]; try done; simp; report.
  - pose proof (Get_no_return data error) as Hget.
    destruct (Get data error) as [err | | e]; [|done|]; simp; [|report].
    pose proof (concat_no_return (js "Error: ")
                  (or_else err (js "Failed to load repository"))) as Hconcat.
    destruct (concat _ _) as [text | | e] eqn:Htext; [|done|]; simp; report.
Qed.

Lemma askQuestion_reports w :
  trim (question (page w)) ≠ [] →
  ∃ evs text,
    call askQuestion w =
      (Fulfilled,
       mkWorld
         (append_doc text
            (append_doc (js "You: " ++ trim (question (page w))) (page w)))
         (trace w ++ evs) (network w)) ∧
    last evs = Some (Append text) ∧
    failure_reported AskQuestion (settled AskQuestion w) text.
Proof.
  intros Hq. unfold failure_reported, settled. unfold_program. simp.
  destruct (trim (question (page w))) as [|c q] eqn:Htrim; [done|]. simp.
  destruct (uri_encode (c :: q)) as [encoded|]; simp; [|report].
  rewrite requests_record by done.
  destruct (network w _ _) as [resp | e]; simp; [|report].
  destruct (ok resp); simp; [|report].
  destruct (parsed resp) as [e | data]; simp; [report|].
  pose proof (Get_no_return data answer) as Hget.
  destruct (Get data answer) as [ans | | e]; [|done|]; simp; [|report].
  pose proof (concat_no_return (js "Bot: ") ans) as Hconcat.
  destruct (concat (js "Bot: ") ans) as [text | | e]; [|done|]; simp; report.
Qed.

Lemma generateSummary_reports w :
  trim (summary_role (page w)) ≠ [] → trim (summary_repo (page w)) ≠ [] →
  ∃ evs text,
    call generateSummary w =
      (Fulfilled,
       mkWorld (set_text_doc SummaryBox text (page w)) (trace w ++ evs)
               (network w)) ∧
    last evs = Some (SetText SummaryBox text) ∧
    failure_reported GenerateSummary (settled GenerateSummary w) text.
Proof.
  intros Hrole Hrepo. unfold failure_reported, settled. unfold_program. simp.
  destruct (trim (summary_role (page w))) as [|c r] eqn:Htrim; [done|].
  destruct (trim (summary_repo (page w))) as [|c' u] eqn:Htrim'; [done|]. simp.
  rewrite requests_record by done.
  destruct (network w _ _) as [resp | e]; simp; [|report].
  destruct (parsed resp) as [e | data]; simp; [report|].
  destruct (ok resp); simp.
  - pose proof (Get_no_return data summary) as Hget.
    destruct (Get data summary) as [msg | | e]; [|done|]; simp; [|report].
    pose proof (ToString_no_return msg) as Hstr.
    destruct msg as [[]|]; unfold_program; simp; try report;
      destruct (ToString _) as [text | | e]; try done; simp; report.
  - pose proof (Get_no_return data error) as Hget.
    destruct (Get data error) as [err | | e]; [|done|]; simp; [|report].
    pose proof (concat_no_return (js "Error: ") (or_else err (js "Failed")))
      as Hconcat.
    destruct (concat _ _) as [text | | e] eqn:Htext; [|done|]; simp; report.
Qed.

(** C9, amended: on every page and however the request settles, each of
    the three handlers ends normally, its promise fulfilled and no
    exception handed to the caller.  A run that lacks a required input
    signals its validation notice and nothing else: the alert of
    [loadRepo] and [askQuestion], which leaves the page as it was, or
    the guidance text of [generateSummary].  Every other run ends with a
    write to its own display target, which then shows the text written,
    and that text starts with ["Error: "] when the request cannot be
    built, when the transport fails, when the status is non-success and
    the body parses, and for [askQuestion] and [generateSummary] when
    the body does not parse; [loadRepo] empties its display when the
    body of a success response does not parse. *)
Theorem handlers_catch_and_report op w :
  (call (handler op) w).1 = Fulfilled ∧
  if decide (input_missing op w) then
    trace (after (handler op) w) = trace w ++ [notice op] ∧
    page (after (handler op) w) =
      match op with
      | GenerateSummary =>
        set_text_doc SummaryBox (js "Please enter both repo URL and role.") (page w)
      | _ => page w
      end
  else
    ∃ evs text,
      trace (after (handler op) w) = trace w ++ evs ∧
      last evs = Some (write op text) ∧
      shown op (page (after (handler op) w)) = Some text ∧
      failure_reported op (settled op w) text.
Proof.
  destruct (decide (input_missing op w)) as [Hmissing | Hinput].
  { unfold after. by rewrite (handler_input_missing op w Hmissing). }
  unfold after.
  destruct op; unfold input_missing, blank in Hinput; unfold handler.
  - destruct (loadRepo_reports w Hinput) as (evs & text & -> & Hlast & Hreport).
    split; [done|]. by exists evs, text.
  - destruct (askQuestion_reports w Hinput) as (evs & text & -> & Hlast & Hreport).
    split; [done|]. exists evs, text. repeat split; try done.
    apply last_snoc.
  - apply Decidable.not_or in Hinput as [Hrepo Hrole].
    destruct (generateSummary_reports w Hrole Hrepo)
      as (evs & text & -> & Hlast & Hreport).
    split; [done|]. by exists evs, text.
Qed.

End Properties.

(** * Further properties of the handlers *)

(** Closes a path of a run whose world is stated up to the text written
    last. *)
Ltac close_run :=
  eexists; unfold record; simp; rewrite <- ?app_assoc; reflexivity.

Section Paths.
Context `{Engine}.

(** ** White space and validation *)

Lemma trimStart_all_white_space s : trimStart s = [] ↔ all_white_space s.
Proof.
  unfold all_white_space. induction s as [|c s IH]; cbn; [done|].
  destruct (is_white_space c) eqn:Hc.
  - rewrite IH. split; [by constructor | by inversion 1].
  - split; [done | inversion 1; congruence].
Qed.

Lemma all_white_space_trimStart s :
  all_white_space (trimStart s) ↔ all_white_space s.
Proof.
  unfold all_white_space. induction s as [|c s IH]; cbn; [done|].
  destruct (is_white_space c) eqn:Hc; [|done].
  rewrite IH. split; [by constructor | by inversion 1].
Qed.

Lemma blank_all_white_space s : blank s ↔ all_white_space s.
Proof.
  unfold blank, trim, trimEnd.
  rewrite <- all_white_space_trimStart.
  set (t := trimStart s).
  split.
  - intros Hrev. apply (f_equal reverse) in Hrev.
    rewrite reverse_involutive in Hrev. cbn in Hrev.
    apply trimStart_all_white_space in Hrev.
    unfold all_white_space in *. by rewrite Forall_reverse in Hrev.
  - intros Hws. unfold all_white_space in Hws.
    rewrite <- Forall_reverse in Hws.
    apply trimStart_all_white_space in Hws. by rewrite Hws.
Qed.

(** X1: a handler stops at its validation notice exactly when a required
    input consists of white space only (or of nothing): the repository
    URL for [loadRepo], the question for [askQuestion], the repository
    URL or the role for [generateSummary]. *)
Theorem notice_exactly_on_white_space op w :
  match op with
  | LoadRepository => all_white_space (repo_url (page w))
  | AskQuestion => all_white_space (question (page w))
  | GenerateSummary =>
    all_white_space (summary_repo (page w)) ∨ all_white_space (summary_role (page w))
  end ↔ trace (after (handler op) w) = trace w ++ [notice op].
Proof.
  assert (input_missing op w ↔
          trace (after (handler op) w) = trace w ++ [notice op]) as Hiff.
  { split.
    - intros Hmissing. unfold after.
      by rewrite (handler_input_missing op w Hmissing).
    - intros Htrace.
      destruct (decide (input_missing op w)) as [|Hinput]; [done|]. exfalso.
      unfold after in Htrace.
      destruct op; unfold input_missing, blank in Hinput; unfold handler in Htrace.
      + destruct (loadRepo_runs w Hinput) as (text & evs & Hrun & _).
        rewrite Hrun in Htrace. cbn [snd trace] in Htrace.
        apply app_inv_head in Htrace. injection Htrace as _ Hnil.
        by destruct evs.
      + destruct (askQuestion_runs w Hinput) as (reply & evs & Hrun & _ & _).
        rewrite Hrun in Htrace. cbn [snd trace] in Htrace.
        apply app_inv_head in Htrace. injection Htrace as _ Hnil.
        by destruct evs.
      + apply Decidable.not_or in Hinput as [Hrepo Hrole].
        destruct (generateSummary_runs w Hrole Hrepo) as (text & evs & Hrun & _).
        rewrite Hrun in Htrace. cbn [snd trace] in Htrace.
        apply app_inv_head in Htrace. injection Htrace as _ Hnil.
        by destruct evs. }
  rewrite <- Hiff.
  destruct op; unfold input_missing; by rewrite !blank_all_white_space.
Qed.

(** ** LoadRepository: the remaining paths *)

(** Every run whose URL can be escaped sends the one request built from
    the escaped text, and ends with a write to [#files]. *)
Lemma loadRepo_runs_encoded w encoded :
  trim (repo_url (page w)) ≠ [] →
  uri_encode (trim (repo_url (page w))) = Some encoded →
  ∃ text,
    call loadRepo w =
      (Fulfilled,
       mkWorld (set_text_doc Files text (page w))
               (trace w ++
                  [SetText Files (js "Loading repository" ++ ellipsis);
                   Fetch (load_repo_request encoded); SetText Files text])
               (network w)).
Proof.
  intros Hurl Henc. unfold_program. simp.
  destruct (trim (repo_url (page w))) as [|c u] eqn:Htrim; [done|]. simp.
  rewrite Henc. simp. rewrite requests_record by done.
  destruct (network w _ _) as [resp | e]; simp; [|close_run].
  destruct (parsed resp) as [e | data]; simp; [close_run|].
  destruct (ok resp); simp.
  - pose proof (Get_no_return data message_) as Hget.
    destruct (Get data message_) as [msg | | e]; [|done|]; simp; [|close_run].
    pose proof (ToString_no_return msg) as Hstr.
    destruct msg as [[]|]; unfold_program; simp; try close_run;
      destruct (ToString _) as [text | | e]; try done; simp; close_run.
  - pose proof (Get_no_return data error) as Hget.
    destruct (Get data error) as [err | | e]; [|done|]; simp; [|close_run].
    pose proof (concat_no_return (js "Error: ")
                  (or_else err (js "Failed to load repository"))) as Hconcat.
    destruct (concat _ _) as [text | | e]; [|done|]; simp; close_run.
Qed.

(** *** What an escaped text is made of *)

Lemma lor_lt_256 a b : a < 256 → b < 256 → N.lor a b < 256.
Proof.
  intros Ha Hb.
  destruct (N.eq_dec a 0) as [->|Ha0]; [by rewrite N.lor_0_l|].
  destruct (N.eq_dec b 0) as [->|Hb0]; [by rewrite N.lor_0_r|].
  change 256 with (2 ^ 8) in *.
  apply N.log2_lt_pow2.
  - assert (N.lor a b ≠ 0) by (rewrite N.lor_eq_0_iff; tauto). lia.
  - rewrite N.log2_lor.
    apply N.log2_lt_pow2 in Ha; [|lia]. apply N.log2_lt_pow2 in Hb; [|lia]. lia.
Qed.

Lemma shiftr_lt a k n : a < 2 ^ (k + n) → N.shiftr a k < 2 ^ n.
Proof.
  intros Ha. rewrite N.shiftr_div_pow2.
  apply N.Div0.div_lt_upper_bound. by rewrite <- N.pow_add_r.
Qed.

Lemma hex_digit_safe d : d < 16 → uri_safe (hex_digit d) = true.
Proof.
  intros Hd. unfold uri_safe, is_upper_hex, hex_digit.
  apply orb_true_iff. right. apply orb_true_iff.
  destruct (N.ltb_spec d 10); [left | right];
    apply andb_true_iff; split; apply N.leb_le; lia.
Qed.

Lemma percent_safe octet :
  octet < 256 → Forall (λ c, uri_safe c = true) (percent octet).
Proof.
  intros Ho. unfold percent. repeat constructor.
  - apply hex_digit_safe. by apply (shiftr_lt octet 4 4).
  - apply hex_digit_safe. pose proof (N.land_le_r octet 0xF). lia.
Qed.

Lemma utf8_octets cp : cp < 2 ^ 26 → Forall (λ o, o < 256) (utf8 cp).
Proof.
  intros Hcp. unfold utf8.
  assert (∀ x, N.lor 0x80 (N.land x 0x3F) < 256) as Htail.
  { intros x. apply lor_lt_256; [lia|]. pose proof (N.land_le_r x 0x3F). lia. }
  destruct (N.ltb_spec cp 0x80); [repeat constructor; lia|].
  destruct (N.ltb_spec cp 0x800).
  { repeat constructor; [|apply Htail].
    apply lor_lt_256; [lia|]. apply (shiftr_lt cp 6 8). simpl. lia. }
  destruct (N.ltb_spec cp 0x10000).
  { repeat constructor; [|apply Htail..].
    apply lor_lt_256; [lia|]. apply (shiftr_lt cp 12 8). simpl. lia. }
  repeat constructor; [|apply Htail..].
  apply lor_lt_256; [lia|]. apply (shiftr_lt cp 18 8). simpl. lia.
Qed.

Lemma escapes_safe cp :
  cp < 2 ^ 26 → Forall (λ c, uri_safe c = true) (mjoin (percent <$> utf8 cp)).
Proof.
  intros Hcp. pose proof (utf8_octets cp Hcp) as Hoctets.
  induction Hoctets as [|o os Ho _ IH]; cbn -[percent]; [done|].
  apply Forall_app. split; [by apply percent_safe | exact IH].
Qed.

(** The escaped form of a string of 16-bit code units holds unreserved
    characters, percent signs and upper-case hexadecimal digits only. *)
Lemma uri_encode_safe s r :
  code_units s → uri_encode s = Some r → Forall (λ c, uri_safe c = true) r.
Proof.
  remember (length s) as n eqn:Hn. revert s r Hn.
  induction n as [n IH] using lt_wf_ind. intros s r -> Hunits.
  destruct s as [|c s]; cbn [uri_encode]; [by intros [= <-]|].
  apply Forall_cons in Hunits as [Hc Hunits].
  destruct (is_uri_unreserved c) eqn:Hunreserved.
  { destruct (uri_encode s) as [r'|] eqn:Hs; [|done]. intros [= <-].
    constructor; [unfold uri_safe; by rewrite Hunreserved|].
    eapply (IH (length s)); [cbn; lia | done | done | done]. }
  destruct (is_trailing_surrogate c); [done|].
  destruct (is_leading_surrogate c) eqn:Hlead.
  - destruct s as [|d s]; [done|].
    apply Forall_cons in Hunits as [Hd Hunits].
    destruct (is_trailing_surrogate d); [|done].
    destruct (uri_encode s) as [r'|] eqn:Hs; [|done]. intros [= <-].
    apply Forall_app. split.
    + apply escapes_safe. simpl. lia.
    + eapply (IH (length s)); [cbn; lia | done | done | done].
  - destruct (uri_encode s) as [r'|] eqn:Hs; [|done]. intros [= <-].
    apply Forall_app. split.
    + apply escapes_safe. simpl. lia.
    + eapply (IH (length s)); [cbn; lia | done | done | done].
Qed.

Lemma code_units_trimStart s : code_units s → code_units (trimStart s).
Proof.
  unfold code_units. induction 1 as [|c s Hc Hs IH]; cbn; [done|].
  destruct (is_white_space c); [done | by constructor].
Qed.

Lemma code_units_trim s : code_units s → code_units (trim s).
Proof.
  intros Hs. unfold trim, trimEnd, code_units.
  apply Forall_reverse. apply code_units_trimStart. unfold code_units.
  apply Forall_reverse. by apply code_units_trimStart.
Qed.

(** X2: whenever the trimmed repository URL can be escaped, [loadRepo]
    sends exactly one request, [POST /load_repo] with the body
    [repo_url=] followed by the escaped URL, however the network then
    settles it; for a URL of 16-bit code units the escaped text holds
    only unreserved characters, [%] and upper-case hexadecimal digits,
    so no second form field can be smuggled in. *)
Theorem loadRepo_sends_escaped_url w encoded :
  code_units (repo_url (page w)) →
  trim (repo_url (page w)) ≠ [] →
  uri_encode (trim (repo_url (page w))) = Some encoded →
  requests (after loadRepo w) = requests w ++ [Fetch (load_repo_request encoded)] ∧
  Forall (λ c, uri_safe c = true) encoded.
Proof.
  intros Hunits Hurl Henc. split.
  - destruct (loadRepo_runs_encoded w encoded Hurl Henc) as [text Hrun].
    unfold after. rewrite Hrun. unfold requests. simp.
    by rewrite filter_app.
  - eapply uri_encode_safe; [|exact Henc]. by apply code_units_trim.
Qed.

(** X3: when the transport fails, the promise of [fetch] rejecting with
    an error [e], [loadRepo] ends normally and [#files] shows
    ["Error: "] followed by the message of [e]. *)
Theorem loadRepo_transport_failure w encoded e :
  trim (repo_url (page w)) ≠ [] →
  uri_encode (trim (repo_url (page w))) = Some encoded →
  network w (length (requests w)) (load_repo_request encoded) = Rejected e →
  (call loadRepo w).1 = Fulfilled ∧
  files (page (after loadRepo w)) = js "Error: " ++ message e.
Proof.
  intros Hurl Henc Hnet. unfold after. unfold_program. simp.
  destruct (trim (repo_url (page w))) as [|c u] eqn:Htrim; [done|]. simp.
  rewrite Henc. simp. rewrite requests_record by done.
  by rewrite Hnet.
Qed.

(** X4: a repository URL that cannot be escaped, because it holds a
    surrogate code unit without its pair, is never sent: [loadRepo]
    issues no request and [#files] shows ["Error: "] followed by the
    message of the [URIError]. *)
Theorem loadRepo_malformed_url w :
  trim (repo_url (page w)) ≠ [] →
  uri_encode (trim (repo_url (page w))) = None →
  (call loadRepo w).1 = Fulfilled ∧
  requests (after loadRepo w) = requests w ∧
  files (page (after loadRepo w)) = js "Error: " ++ uri_malformed_message.
Proof.
  intros Hurl Henc. unfold after. unfold_program. simp.
  destruct (trim (repo_url (page w))) as [|c u] eqn:Htrim; [done|]. simp.
  rewrite Henc. simp.
  rewrite !requests_record by done. done.
Qed.

(** X5: on a success status, a body that parses to something other than
    [null] but carries no [message], or a [null] one, empties [#files]:
    the operator sees the same blank area as after a body that does not
    parse. *)
Theorem loadRepo_missing_message w resp data :
  load_repo_responds w resp → ok resp = true → parsed resp = inr data →
  data ≠ JNull →
  field data message_ = None ∨ field data message_ = Some JNull →
  (call loadRepo w).1 = Fulfilled ∧ files (page (after loadRepo w)) = [].
Proof.
  intros (Hurl & encoded & Henc & Hnet) Hok Hparsed Hnull Hfield.
  unfold after. unfold_program. simp.
  destruct (trim (repo_url (page w))) as [|c u] eqn:Htrim; [done|]. simp.
  rewrite Henc. simp. rewrite requests_record, Hnet by done. simp.
  rewrite Hparsed, Hok. simp.
  rewrite (Get_field data message_ Hnull).
  by destruct Hfield as [-> | ->].
Qed.

(** ** AskQuestion: the paths one by one *)

(** X6: on a success status with a body that carries an [answer]
    string, [askQuestion] adds two entries to the message log, the
    question and ["Bot: "] followed by the answer. *)
Theorem askQuestion_answer w resp data s :
  ask_responds w resp → ok resp = true → parsed resp = inr data →
  field data answer = Some (JStr s) →
  (call askQuestion w).1 = Fulfilled ∧
  chat_box (page (after askQuestion w)) =
    chat_box (page w) ++ [js "You: " ++ trim (question (page w)); js "Bot: " ++ s].
Proof.
  intros (Hq & encoded & Henc & Hnet) Hok Hparsed Hfield.
  assert (data ≠ JNull) as Hnull by (by intros ->).
  unfold after. unfold_program. simp.
  destruct (trim (question (page w))) as [|c q] eqn:Htrim; [done|]. simp.
  rewrite Henc. simp. rewrite requests_record, Hnet by done. simp.
  rewrite Hok, Hparsed. simp.
  rewrite (Get_field data answer Hnull), Hfield. cbn -[js].
  by rewrite <- app_assoc.
Qed.

(** X7: on a non-success status [askQuestion] never reads the body: the
    reply entry is ["Error: Failed to get answer"] whether the body
    parses or not, and whatever error text the server sent. *)
Theorem askQuestion_error_status_ignores_body w resp :
  ask_responds w resp → ok resp = false →
  (call askQuestion w).1 = Fulfilled ∧
  chat_box (page (after askQuestion w)) =
    chat_box (page w) ++
      [js "You: " ++ trim (question (page w)); js "Error: Failed to get answer"].
Proof.
  intros Hresp Hok. split; [|by apply (askQuestion_error_status w resp)].
  destruct Hresp as [Hq _].
  by destruct (askQuestion_runs w Hq) as (reply & evs & -> & _).
Qed.

(** X8: when the transport fails, [askQuestion] keeps the question in
    the log and adds ["Error: "] followed by the message of the error
    [fetch] rejected with. *)
Theorem askQuestion_transport_failure w encoded e :
  trim (question (page w)) ≠ [] →
  uri_encode (trim (question (page w))) = Some encoded →
  network w (length (requests w)) (ask_request encoded) = Rejected e →
  (call askQuestion w).1 = Fulfilled ∧
  chat_box (page (after askQuestion w)) =
    chat_box (page w) ++
      [js "You: " ++ trim (question (page w)); js "Error: " ++ message e].
Proof.
  intros Hq Henc Hnet. unfold after. unfold_program. simp.
  destruct (trim (question (page w))) as [|c q] eqn:Htrim; [done|]. simp.
  rewrite Henc. simp. rewrite requests_record, Hnet by done. simp.
  by rewrite <- app_assoc.
Qed.

(** X9: on a success status with a body that does not parse,
    [askQuestion] shows the parser's own message: the reply entry is
    ["Error: "] followed by the message [resp.json()] rejected with,
    where [loadRepo] shows nothing and [generateSummary] a fixed text. *)
Theorem askQuestion_unparseable_success w resp e :
  ask_responds w resp → ok resp = true → parsed resp = inl e →
  (call askQuestion w).1 = Fulfilled ∧
  chat_box (page (after askQuestion w)) =
    chat_box (page w) ++
      [js "You: " ++ trim (question (page w)); js "Error: " ++ message e].
Proof.
  intros (Hq & encoded & Henc & Hnet) Hok Hparsed.
  unfold after. unfold_program. simp.
  destruct (trim (question (page w))) as [|c q] eqn:Htrim; [done|]. simp.
  rewrite Henc. simp. rewrite requests_record, Hnet by done. simp.
  rewrite Hok, Hparsed. simp.
  by rewrite <- app_assoc.
Qed.

(** X10: on a success status with a body that parses to something other
    than [null] and carries no [answer], the reply entry is
    ["Bot: undefined"]: the missing field is not detected. *)
Theorem askQuestion_missing_answer w resp data :
  ask_responds w resp → ok resp = true → parsed resp = inr data →
  data ≠ JNull → field data answer = None →
  (call askQuestion w).1 = Fulfilled ∧
  chat_box (page (after askQuestion w)) =
    chat_box (page w) ++
      [js "You: " ++ trim (question (page w)); js "Bot: undefined"].
Proof.
  intros (Hq & encoded & Henc & Hnet) Hok Hparsed Hnull Hfield.
  unfold after. unfold_program. simp.
  destruct (trim (question (page w))) as [|c q] eqn:Htrim; [done|]. simp.
  rewrite Henc. simp. rewrite requests_record, Hnet by done. simp.
  rewrite Hok, Hparsed. simp.
  rewrite (Get_field data answer Hnull), Hfield. cbn -[js].
  by rewrite <- app_assoc.
Qed.

(** ** GenerateSummary: the remaining paths *)

(** X11: on a non-success status with a body that parses to something
    other than [null], [generateSummary] shows ["Error: "] followed by
    the [error] field when that field is a non-empty string, and
    ["Error: Failed"] when it is absent or the empty string. *)
Theorem generateSummary_error_status_display w resp data :
  process_repo_responds w resp → ok resp = false → parsed resp = inr data →
  data ≠ JNull →
  (field data error = None ∨ ∃ s, field data error = Some (JStr s)) →
  (call generateSummary w).1 = Fulfilled ∧
  summary_box (page (after generateSummary w)) =
    js "Error: " ++
    match field data error with
    | Some (JStr (c :: s)) => c :: s
    | _ => js "Failed"
    end.
Proof.
  intros (Hrole & Hrepo & Hnet) Hok Hparsed Hnull Hfield.
  unfold after. unfold_program. simp.
  destruct (trim (summary_role (page w))) as [|c r] eqn:Htrim; [done|].
  destruct (trim (summary_repo (page w))) as [|c' u] eqn:Htrim'; [done|]. simp.
  rewrite requests_record, Hnet by done. simp.
  rewrite Hparsed, Hok. simp.
  rewrite (Get_field data error Hnull).
  by destruct Hfield as [-> | [[|c0 s] ->]].
Qed.

(** X12: on a success status with a body that carries a [summary]
    string, [generateSummary] shows that string verbatim in
    [#summary-box]. *)
Theorem generateSummary_success_shows_summary w resp data s :
  process_repo_responds w resp → ok resp = true → parsed resp = inr data →
  field data summary = Some (JStr s) →
  (call generateSummary w).1 = Fulfilled ∧
  summary_box (page (after generateSummary w)) = s.
Proof.
  intros (Hrole & Hrepo & Hnet) Hok Hparsed Hfield.
  assert (data ≠ JNull) as Hnull by (by intros ->).
  unfold after. unfold_program. simp.
  destruct (trim (summary_role (page w))) as [|c r] eqn:Htrim; [done|].
  destruct (trim (summary_repo (page w))) as [|c' u] eqn:Htrim'; [done|]. simp.
  rewrite requests_record, Hnet by done. simp.
  rewrite Hparsed, Hok. simp.
  by rewrite (Get_field data summary Hnull), Hfield.
Qed.

(** X13: when the transport fails, [generateSummary] ends normally and
    [#summary-box] shows ["Error: "] followed by the message of the
    error [fetch] rejected with. *)
Theorem generateSummary_transport_failure w e :
  trim (summary_role (page w)) ≠ [] → trim (summary_repo (page w)) ≠ [] →
  network w (length (requests w))
    (process_repo_request (trim (summary_role (page w)))
                          (trim (summary_repo (page w)))) = Rejected e →
  (call generateSummary w).1 = Fulfilled ∧
  summary_box (page (after generateSummary w)) = js "Error: " ++ message e.
Proof.
  intros Hrole Hrepo Hnet. unfold after. unfold_program. simp.
  destruct (trim (summary_role (page w))) as [|c r] eqn:Htrim; [done|].
  destruct (trim (summary_repo (page w))) as [|c' u] eqn:Htrim'; [done|]. simp.
  rewrite requests_record, Hnet by done. done.
Qed.

(** Every run with both inputs filled in sends the one request built
    from the trimmed inputs. *)
Lemma generateSummary_runs_request w :
  trim (summary_role (page w)) ≠ [] → trim (summary_repo (page w)) ≠ [] →
  ∃ text,
    call generateSummary w =
      (Fulfilled,
       mkWorld (set_text_doc SummaryBox text (page w))
               (trace w ++
                  [SetText SummaryBox (js "Generating summary" ++ ellipsis);
                   Fetch (process_repo_request (trim (summary_role (page w)))
                                               (trim (summary_repo (page w))));
                   SetText SummaryBox text])
               (network w)).
Proof.
  intros Hrole Hrepo. unfold_program. simp.
  destruct (trim (summary_role (page w))) as [|c r] eqn:Htrim; [done|].
  destruct (trim (summary_repo (page w))) as [|c' u] eqn:Htrim'; [done|]. simp.
  rewrite requests_record by done.
  destruct (network w _ _) as [resp | e]; simp; [|close_run].
  destruct (parsed resp) as [e | data]; simp; [close_run|].
  destruct (ok resp); simp.
  - pose proof (Get_no_return data summary) as Hget.
    destruct (Get data summary) as [msg | | e]; [|done|]; simp; [|close_run].
    pose proof (ToString_no_return msg) as Hstr.
    destruct msg as [[]|]; unfold_program; simp; try close_run;
      destruct (ToString _) as [text | | e]; try done; simp; close_run.
  - pose proof (Get_no_return data error) as Hget.
    destruct (Get data error) as [err | | e]; [|done|]; simp; [|close_run].
    pose proof (concat_no_return (js "Error: ") (or_else err (js "Failed")))
      as Hconcat.
    destruct (concat _ _) as [text | | e]; [|done|]; simp; close_run.
Qed.

(** X14: with both inputs filled in, [generateSummary] always sends
    exactly one request, [POST /process_repo] without explicit headers,
    whose form data holds the trimmed role under [role] and the trimmed
    repository URL under [repo_link], in that order, each converted to
    scalar values, so that a surrogate without its pair travels as
    U+FFFD; unlike the two url-encoded handlers no input can keep the
    request from being sent. *)
Theorem generateSummary_sends_trimmed_fields w :
  trim (summary_role (page w)) ≠ [] → trim (summary_repo (page w)) ≠ [] →
  requests (after generateSummary w) =
    requests w ++
      [Fetch (mkRequest (js "/process_repo") (js "POST") []
                (FormData [(js "role", to_usv (trim (summary_role (page w))));
                           (js "repo_link", to_usv (trim (summary_repo (page w))))]))].
Proof.
  intros Hrole Hrepo.
  destruct (generateSummary_runs_request w Hrole Hrepo) as [text Hrun].
  unfold after. rewrite Hrun. unfold requests. simp.
  by rewrite filter_app.
Qed.

(** ** AskQuestion: the request *)

Lemma askQuestion_runs_encoded w encoded :
  trim (question (page w)) ≠ [] →
  uri_encode (trim (question (page w))) = Some encoded →
  ∃ reply,
    call askQuestion w =
      (Fulfilled,
       mkWorld
         (append_doc reply
            (append_doc (js "You: " ++ trim (question (page w))) (page w)))
         (trace w ++
            [Append (js "You: " ++ trim (question (page w)));
             Fetch (ask_request encoded); Append reply])
         (network w)).
Proof.
  intros Hq Henc. unfold_program. simp.
  destruct (trim (question (page w))) as [|c q] eqn:Htrim; [done|]. simp.
  rewrite Henc. simp. rewrite requests_record by done.
  destruct (network w _ _) as [resp | e]; simp; [|close_run].
  destruct (ok resp); simp; [|close_run].
  destruct (parsed resp) as [e | data]; simp; [close_run|].
  pose proof (Get_no_return data answer) as Hget.
  destruct (Get data answer) as [ans | | e]; [|done|]; simp; [|close_run].
  pose proof (concat_no_return (js "Bot: ") ans) as Hconcat.
  destruct (concat (js "Bot: ") ans) as [text | | e]; [|done|]; simp; close_run.
Qed.

(** X15: a question that cannot be escaped, because it holds a surrogate
    code unit without its pair, is logged but never sent: [askQuestion]
    issues no request and the reply entry is ["Error: "] followed by the
    message of the [URIError]. *)
Theorem askQuestion_malformed_question w :
  trim (question (page w)) ≠ [] →
  uri_encode (trim (question (page w))) = None →
  (call askQuestion w).1 = Fulfilled ∧
  requests (after askQuestion w) = requests w ∧
  chat_box (page (after askQuestion w)) =
    chat_box (page w) ++
      [js "You: " ++ trim (question (page w)); js "Error: " ++ uri_malformed_message].
Proof.
  intros Hq Henc. unfold after. unfold_program. simp.
  destruct (trim (question (page w))) as [|c q] eqn:Htrim; [done|]. simp.
  rewrite Henc. simp.
  rewrite !requests_record by done. by rewrite <- app_assoc.
Qed.

(** X16: whenever the trimmed question can be escaped, [askQuestion]
    sends exactly one request, [POST /ask] with the body [question=]
    followed by the escaped question; for a question of 16-bit code
    units the escaped text holds only unreserved characters, [%] and
    upper-case hexadecimal digits. *)
Theorem askQuestion_sends_escaped_question w encoded :
  code_units (question (page w)) →
  trim (question (page w)) ≠ [] →
  uri_encode (trim (question (page w))) = Some encoded →
  requests (after askQuestion w) = requests w ++ [Fetch (ask_request encoded)] ∧
  Forall (λ c, uri_safe c = true) encoded.
Proof.
  intros Hunits Hq Henc. split.
  - destruct (askQuestion_runs_encoded w encoded Hq Henc) as [reply Hrun].
    unfold after. rewrite Hrun. unfold requests. simp.
    by rewrite filter_app.
  - eapply uri_encode_safe; [|exact Henc]. by apply code_units_trim.
Qed.

(** ** All three operations: what a run leaves alone *)

(** X17: a handler changes nothing on the page but its own display
    target.  No run alters the value of an input; [loadRepo] leaves the
    summary box and the message log as they were, [generateSummary] the
    files area and the log, [askQuestion] both status areas; and the log
    is append-only, a run of [askQuestion] adding nothing (on a blank
    question) or exactly two entries after the ones already there. *)
Theorem handlers_frame op w :
  let d := page w in
  let d' := page (after (handler op) w) in
  repo_url d' = repo_url d ∧ question d' = question d ∧
  summary_role d' = summary_role d ∧ summary_repo d' = summary_repo d ∧
  match op with
  | LoadRepository => summary_box d' = summary_box d ∧ chat_box d' = chat_box d
  | AskQuestion =>
    files d' = files d ∧ summary_box d' = summary_box d ∧
    ∃ new, chat_box d' = chat_box d ++ new ∧ (new = [] ∨ length new = 2%nat)
  | GenerateSummary => files d' = files d ∧ chat_box d' = chat_box d
  end.
Proof.
  intros d d'. subst d d'. unfold after.
  destruct (decide (input_missing op w)) as [Hmissing | Hinput].
  { rewrite (handler_input_missing op w Hmissing). destruct op; simp; try done.
    repeat split; try done. exists []. split; [by rewrite app_nil_r | by left]. }
  destruct op; unfold input_missing, blank in Hinput; unfold handler.
  - by destruct (loadRepo_runs w Hinput) as (text & evs & -> & _).
  - destruct (askQuestion_runs w Hinput) as (reply & evs & -> & _ & _). simp.
    repeat split; try done. eexists [_; _].
    split; [by rewrite <- app_assoc | by right].
  - apply Decidable.not_or in Hinput as [Hrepo Hrole].
    by destruct (generateSummary_runs w Hrole Hrepo) as (text & evs & -> & _).
Qed.

(** X18: no run sends more than one request, and a request a handler
    sends is a [POST] to the path of its own operation: nothing is
    retried, and no handler calls the endpoint of another. *)
Theorem handlers_send_at_most_one_post op w :
  requests (after (handler op) w) = requests w ∨
  ∃ req,
    requests (after (handler op) w) = requests w ++ [Fetch req] ∧
    url req = endpoint op ∧ method req = js "POST".
Proof.
  destruct (decide (input_missing op w)) as [Hmissing | Hinput].
  { left. unfold after. rewrite (handler_input_missing op w Hmissing).
    unfold requests. simp. rewrite filter_app.
    destruct op; simp; apply app_nil_r. }
  destruct op; unfold input_missing, blank in Hinput; unfold handler.
  - destruct (uri_encode (trim (repo_url (page w)))) as [encoded|] eqn:Henc.
    + right. exists (load_repo_request encoded). split; [|done].
      destruct (loadRepo_runs_encoded w encoded Hinput Henc) as [text Hrun].
      unfold after. rewrite Hrun. unfold requests. simp. by rewrite filter_app.
    + left. unfold after. revert Henc. unfold_program. simp.
      destruct (trim (repo_url (page w))) as [|c u] eqn:Htrim; [done|]. simp.
      intros ->. simp. by rewrite !requests_record.
  - destruct (uri_encode (trim (question (page w)))) as [encoded|] eqn:Henc.
    + right. exists (ask_request encoded). split; [|done].
      destruct (askQuestion_runs_encoded w encoded Hinput Henc) as [reply Hrun].
      unfold after. rewrite Hrun. unfold requests. simp. by rewrite filter_app.
    + left. unfold after. revert Henc. unfold_program. simp.
      destruct (trim (question (page w))) as [|c u] eqn:Htrim; [done|]. simp.
      intros ->. simp. by rewrite !requests_record.
  - apply Decidable.not_or in Hinput as [Hrepo Hrole].
    right.
    exists (process_repo_request (trim (summary_role (page w)))
                                 (trim (summary_repo (page w)))).
    split; [|done].
    destruct (generateSummary_runs_request w Hrole Hrepo) as [text Hrun].
    unfold after. rewrite Hrun. unfold requests. simp. by rewrite filter_app.
Qed.

(** ** White space around an input *)

Lemma trimStart_app_white_space pre s :
  all_white_space pre → trimStart (pre ++ s) = trimStart s.
Proof.
  unfold all_white_space. induction 1 as [|c pre Hc _ IH]; cbn; [done|].
  by rewrite Hc.
Qed.

Lemma trimEnd_app_white_space s post :
  all_white_space post → trimEnd (s ++ post) = trimEnd s.
Proof.
  intros Hpost. unfold trimEnd. rewrite reverse_app.
  rewrite trimStart_app_white_space; [done|].
  unfold all_white_space in *. by apply Forall_reverse.
Qed.

Lemma trimStart_app s t :
  trimStart s ≠ [] → trimStart (s ++ t) = trimStart s ++ t.
Proof.
  induction s as [|c s IH]; cbn; [done|].
  destruct (is_white_space c); [exact IH | done].
Qed.

Lemma trim_padded pre s post :
  all_white_space pre → all_white_space post →
  trim (pre ++ s ++ post) = trim s.
Proof.
  intros Hpre Hpost. unfold trim.
  rewrite trimStart_app_white_space by done.
  destruct (trimStart s) as [|c t] eqn:Hs.
  - apply trimStart_all_white_space in Hs.
    rewrite trimStart_app_white_space by done.
    by apply trimStart_all_white_space in Hpost as ->.
  - rewrite trimStart_app by congruence. rewrite Hs.
    by apply trimEnd_app_white_space.
Qed.

(** A program that never reads an input runs the same whatever the
    operator has typed: it commutes with typing. *)
Definition commutes_with_typing {A} (m : M A) : Prop :=
  ∀ i v w, m (type_into i v w) = ((m w).1, type_into i v (m w).2).

Lemma typing_lift {A} (c : Completion A) : commutes_with_typing (lift c).
Proof. done. Qed.

Lemma typing_ret {A} (a : A) : commutes_with_typing (mret a).
Proof. done. Qed.

Lemma typing_bind {A B} (m : M A) (f : A → M B) :
  commutes_with_typing m → (∀ a, commutes_with_typing (f a)) →
  commutes_with_typing (m ≫= f).
Proof.
  intros Hm Hf i v w. unfold mbind, M_bind. rewrite Hm.
  destruct (m w) as [[a| |e] w']; cbn [fst snd]; [apply Hf | done | done].
Qed.

Lemma typing_try_catch {A} (block : M A) (handler : JsError → M A) :
  commutes_with_typing block → (∀ e, commutes_with_typing (handler e)) →
  commutes_with_typing (try_catch block handler).
Proof.
  intros Hblock Hhandler i v w. unfold try_catch. rewrite Hblock.
  destruct (block w) as [[a| |e] w']; cbn [fst snd]; [done | done | apply Hhandler].
Qed.

Lemma typing_when c (block : M unit) :
  commutes_with_typing block → commutes_with_typing (when c block).
Proof. intros Hblock. unfold when. destruct c; [done | apply typing_ret]. Qed.

Lemma typing_alert msg : commutes_with_typing (alert msg).
Proof. intros i v w. by destruct i. Qed.

Lemma typing_set_text el s : commutes_with_typing (set_text el s).
Proof. intros i v w. by destruct i, el. Qed.

Lemma typing_append_paragraph s : commutes_with_typing (append_paragraph s).
Proof. intros i v w. by destruct i. Qed.

Lemma typing_set_textContent el x : commutes_with_typing (set_textContent el x).
Proof.
  unfold set_textContent.
  destruct x as [[]|]; try apply typing_set_text;
    (apply typing_bind; [apply typing_lift | intros; apply typing_set_text]).
Qed.

Lemma typing_fetch req : commutes_with_typing (fetch req).
Proof.
  intros i v w. unfold fetch.
  change (requests (type_into i v w)) with (requests w).
  change (network (type_into i v w)) with (network w).
  destruct (network w _ _); by destruct i.
Qed.

Lemma typing_json_of resp : commutes_with_typing (json_of resp).
Proof. unfold json_of. by destruct (parsed resp). Qed.

Ltac typing :=
  repeat first
    [ apply typing_bind; [|intros ?]
    | apply typing_try_catch; [|intros ?]
    | apply typing_when
    | apply typing_lift | apply typing_ret
    | apply typing_alert | apply typing_set_text | apply typing_append_paragraph
    | apply typing_set_textContent | apply typing_fetch | apply typing_json_of ].

(** A program that reads inputs through [trim] only runs the same when
    the operator types a text with the same trimmed form. *)
Definition trim_stable {A} (m : M A) : Prop :=
  ∀ i v w, trim v = trim (input_value i (page w)) →
    m (type_into i v w) = ((m w).1, type_into i v (m w).2).

Lemma typing_trim_stable {A} (m : M A) : commutes_with_typing m → trim_stable m.
Proof. intros Hm i v w _. apply Hm. Qed.

Lemma trim_stable_read {A} j (k : jsstring → M A) :
  (∀ a, trim_stable (k a)) → (∀ a b, trim a = trim b → k a = k b) →
  trim_stable (value_of j ≫= k).
Proof.
  intros Hk Htrim i v w Hv. unfold mbind, M_bind, value_of.
  cbn [fst snd].
  assert (∀ x, trim x = trim (input_value j (page w)) →
               k x (type_into i v w) =
               ((k (input_value j (page w)) w).1,
                type_into i v (k (input_value j (page w)) w).2)) as Hx.
  { intros x Heq. rewrite (Htrim x _ Heq). by apply Hk. }
  destruct i, j; cbn [type_into page repo_url question summary_role summary_repo];
    apply Hx; done.
Qed.

Lemma trim_stable_handler op : trim_stable (handler op).
Proof.
  destruct op; unfold handler, loadRepo, askQuestion, generateSummary.
  - apply trim_stable_read.
    + intros a. apply typing_trim_stable. cbv zeta. typing.
    + intros a b Hab. cbv zeta. by rewrite Hab.
  - apply trim_stable_read.
    + intros a. apply typing_trim_stable. cbv zeta. typing.
    + intros a b Hab. cbv zeta. by rewrite Hab.
  - apply trim_stable_read.
    + intros a. cbv zeta. apply trim_stable_read.
      * intros b. apply typing_trim_stable. cbv zeta. typing.
      * intros b c Hbc. cbv zeta. by rewrite Hbc.
    + intros a b Hab. cbv zeta. by rewrite Hab.
Qed.

(** X23: white space typed before or after the text of an input never
    changes a run: started on the padded input, each handler settles
    its promise the same way and leaves the same page, trace and
    requests as on the text alone, the padded input itself apart. *)
Theorem handlers_ignore_surrounding_white_space op i pre post w :
  all_white_space pre → all_white_space post →
  let padded := pre ++ input_value i (page w) ++ post in
  call (handler op) (type_into i padded w) =
    ((call (handler op) w).1, type_into i padded (after (handler op) w)).
Proof.
  intros Hpre Hpost padded. unfold after, call.
  rewrite (trim_stable_handler op i padded w) by (by apply trim_padded).
  by destruct (handler op w) as [[a| |e] w'].
Qed.

(** ** A conversation *)

(** X24: any number of questions asked one after the other, none of
    them blank, add to the message log exactly two entries each, in the
    order asked: the trimmed question after ["You: "], then its reply,
    which starts with ["Bot: "] or ["Error: "]; the entries already
    there stay in front. *)
Theorem ask_each_log qs w :
  Forall (λ q, trim q ≠ []) qs →
  ∃ replies,
    length replies = length qs ∧ Forall is_reply replies ∧
    chat_box (page (ask_each qs w)) =
      chat_box (page w) ++
        mjoin (zip_with (λ q r, [js "You: " ++ trim q; r]) qs replies).
Proof.
  intros Hqs. revert w.
  induction Hqs as [|q qs Hq _ IH]; intros w.
  { exists []. repeat split; [done|]. by rewrite app_nil_r. }
  assert (trim (question (page (type_into Question q w))) ≠ []) as Hq' by done.
  destruct (askQuestion_runs _ Hq') as (r & evs & Hrun & Hr & _).
  change (ask_each (q :: qs) w)
    with (ask_each qs (after askQuestion (type_into Question q w))).
  destruct (IH (after askQuestion (type_into Question q w)))
    as (replies & Hlen & Hreplies & Hlog).
  exists (r :: replies). split; [cbn; by rewrite Hlen|].
  split; [by constructor|].
  rewrite Hlog. unfold after at 1. rewrite Hrun. simp.
  by rewrite <- !app_assoc.
Qed.

(** ** The second copy of the script *)

Ltac unfold_part000 :=
  unfold Part000.loadRepo, Part000.generateSummary.

(** X19: on a non-success status the [loadRepo] of the second copy ends
    normally and shows ["Error: Failed to load repo"]; the body is
    never read, so an error text sent by the server is not shown. *)
Theorem Part000_loadRepo_reports_error_status w resp :
  load_repo_responds w resp → ok resp = false →
  (call Part000.loadRepo w).1 = Fulfilled ∧
  files (page (after Part000.loadRepo w)) = js "Error: Failed to load repo".
Proof.
  intros Hresp Hok. split; [|by apply (Part000_loadRepo_error_status w resp)].
  destruct Hresp as (Hurl & encoded & Henc & Hnet).
  unfold_part000. unfold_program. simp.
  destruct (trim (repo_url (page w))) as [|c s] eqn:Htrim; [done|]. simp.
  rewrite Henc, requests_record, Hnet by done. simp.
  by rewrite Hok.
Qed.

(** X20: the two copies of [loadRepo] behave alike, same promise, same
    page and same trace, unless a response arrives that has a
    non-success status or a body that does not parse: on blank input,
    on a URL that cannot be escaped, on a transport failure and on a
    success response with a JSON body. *)
Theorem loadRepo_copies_agree w :
  (∀ encoded resp,
     uri_encode (trim (repo_url (page w))) = Some encoded →
     network w (length (requests w)) (load_repo_request encoded) = Resolved resp →
     ok resp = true ∧ ∃ data, parsed resp = inr data) →
  call Part000.loadRepo w = call loadRepo w.
Proof.
  intros Hgood. unfold_part000. unfold_program. simp.
  destruct (trim (repo_url (page w))) as [|c u] eqn:Htrim; [done|]. simp.
  destruct (uri_encode (c :: u)) as [encoded|] eqn:Henc; simp; [|done].
  rewrite requests_record by done.
  destruct (network w _ _) as [resp | e] eqn:Hnet; simp; [|done].
  destruct (Hgood encoded resp eq_refl Hnet) as (Hok & data & Hparsed).
  by rewrite Hok, Hparsed.
Qed.

(** X21: the two copies of [generateSummary] behave alike, same promise,
    same page and same trace, whenever the request does not come back
    with a body that fails to parse: throwing
    [new Error(data.error || "Failed")] into the outer [catch] shows
    what the direct write of the first copy shows. *)
Theorem generateSummary_copies_agree w :
  body_parses
    (network w (length (requests w))
       (process_repo_request (trim (summary_role (page w)))
                             (trim (summary_repo (page w))))) →
  call Part000.generateSummary w = call generateSummary w.
Proof.
  intros Hparses. unfold_part000. unfold_program. simp.
  destruct (trim (summary_role (page w))) as [|c r] eqn:Htrim;
    [by destruct (trim (summary_repo (page w)))|].
  destruct (trim (summary_repo (page w))) as [|c' u] eqn:Htrim'; [done|]. simp.
  rewrite requests_record by done.
  destruct (network w _ _) as [resp | e]; simp; [|done].
  destruct Hparses as [data Hparsed]. rewrite Hparsed. simp.
  destruct (ok resp); simp; [done|].
  destruct (Get data error) as [err | | e]; simp; try done.
  unfold concat.
  pose proof (ToString_no_return (or_else err (js "Failed"))) as Hstr.
  destruct (ToString _) as [text | | e]; done.
Qed.

(** X22: on a body that does not parse, whatever the status, the
    [generateSummary] of the second copy shows ["Error: "] followed by
    the message [resp.json()] rejected with, where the first copy shows
    its fixed "unexpected response" text. *)
Theorem Part000_generateSummary_unparseable w resp e :
  process_repo_responds w resp → parsed resp = inl e →
  (call Part000.generateSummary w).1 = Fulfilled ∧
  summary_box (page (after Part000.generateSummary w)) = js "Error: " ++ message e.
Proof.
  intros (Hrole & Hrepo & Hnet) Hparsed.
  unfold after. unfold_part000. unfold_program. simp.
  destruct (trim (summary_role (page w))) as [|c r] eqn:Htrim; [done|].
  destruct (trim (summary_repo (page w))) as [|c' u] eqn:Htrim'; [done|]. simp.
  rewrite requests_record, Hnet by done. simp.
  by rewrite Hparsed.
Qed.

End Paths.

(** * Concrete runs *)

Import Sample.

Ltac responds :=
  split; [by vm_compute|]; eexists; (split; [by vm_compute | done]).

(** C1 (the code departs from the claim): on a 500 response to
    [/load_repo] whose body is not parseable as JSON, [loadRepo] leaves
    [#files] empty; it does not show ["Error: Failed to load
    repository"]. *)
Theorem loadRepo_unparseable_500_clears :
  let resp := mkResponse 500 (inl html_body) in
  let w := world repo_page (Resolved resp) in
  load_repo_responds w resp ∧ ok resp = false ∧
  files (page (after loadRepo w)) = [] ∧
  files (page (after loadRepo w)) ≠ js "Error: Failed to load repository".
Proof.
  intros resp w. split; [responds | by vm_compute].
Qed.

Lemma loadRepo_success_unparseable_clears_witness :
  let resp := mkResponse 200 (inl html_body) in
  let w := world repo_page (Resolved resp) in
  (call loadRepo w).1 = Fulfilled ∧
  files (page (after loadRepo w)) = [] ∧
  page (after loadRepo w) = set_text_doc Files [] (page w) ∧
  ∃ req, trace (after loadRepo w) =
    trace w ++ [SetText Files (js "Loading repository" ++ ellipsis);
                Fetch req; SetText Files []].
Proof.
  intros resp w.
  apply (loadRepo_success_unparseable_clears w resp html_body);
    [responds | done | done].
Defined.

(** The claim C4 as stated fails twice.  A 500 response whose body
    carries an [error] field holding the empty string shows the generic
    text, not ["Error: "] followed by the field; and a 500 response
    whose body is the JSON value [null] shows the message of a
    [TypeError], not the generic text. *)
Lemma loadRepo_error_field_counterexample :
  let body := object [(js "error", JStr [])] in
  let w := world repo_page (Resolved (mkResponse 500 (inr body))) in
  let w0 := world repo_page (Resolved (mkResponse 500 (inr JNull))) in
  (field body error = Some (JStr []) ∧
   files (page (after loadRepo w)) ≠ js "Error: " ++ [] ∧
   files (page (after loadRepo w)) = js "Error: Failed to load repository") ∧
  (files (page (after loadRepo w0)) ≠ js "Error: Failed to load repository" ∧
   files (page (after loadRepo w0)) =
     js "Error: Cannot read properties of null (reading 'error')").
Proof. by vm_compute. Qed.

Lemma loadRepo_error_status_display_witness :
  let body := object [(js "error", JStr (js "rate limited"))] in
  let w := world repo_page (Resolved (mkResponse 500 (inr body))) in
  files (page (after loadRepo w)) = js "Error: rate limited".
Proof.
  intros body w.
  apply (loadRepo_error_status_display w (mkResponse 500 (inr body)) body);
    [responds | done | done | done | right; by eexists].
Defined.

Lemma loadRepo_success_shows_message_witness :
  let body := object [(js "message", JStr (js "42 files"))] in
  let w := world repo_page (Resolved (mkResponse 200 (inr body))) in
  (call loadRepo w).1 = Fulfilled ∧
  files (page (after loadRepo w)) = js "42 files".
Proof.
  intros body w.
  apply (loadRepo_success_shows_message w (mkResponse 200 (inr body)) body);
    [responds | done | done | done].
Defined.

Lemma generateSummary_success_unparseable_reports_witness :
  let resp := mkResponse 200 (inl html_body) in
  let w := world summary_page (Resolved resp) in
  (call generateSummary w).1 = Fulfilled ∧
  summary_box (page (after generateSummary w)) =
    js "Error: Unexpected response. Please check the backend." ∧
  summary_box (page (after generateSummary w)) ≠ [].
Proof.
  intros resp w.
  apply (generateSummary_success_unparseable_reports w resp html_body);
    [by vm_compute | done | done].
Defined.

Lemma generateSummary_unparseable_any_status_witness :
  let resp := mkResponse 502 (inl html_body) in
  let w := world summary_page (Resolved resp) in
  summary_box (page (after generateSummary w)) =
    js "Error: Unexpected response. Please check the backend." ∧
  ∃ req, trace (after generateSummary w) =
    trace w ++
      [SetText SummaryBox (js "Generating summary" ++ ellipsis);
       Fetch req;
       SetText SummaryBox (js "Error: Unexpected response. Please check the backend.")].
Proof.
  intros resp w.
  apply (generateSummary_unparseable_any_status w resp html_body);
    [by vm_compute | done].
Defined.

Lemma askQuestion_logs_question_first_witness :
  let w := world question_page (Rejected (mkError TypeError (js "Failed to fetch"))) in
  let you := js "You: What does main.py do?" in
  ∃ reply,
    chat_box (page (after askQuestion w)) = chat_box (page w) ++ [you; reply] ∧
    (trace (after askQuestion w) = trace w ++ [Append you; Append reply] ∨
     ∃ req, trace (after askQuestion w) =
              trace w ++ [Append you; Fetch req; Append reply]).
Proof.
  intros w. apply (askQuestion_logs_question_first w). by vm_compute.
Defined.

Lemma askQuestion_twice_four_entries_witness :
  let body := object [(js "answer", JStr (js "It starts the server."))] in
  let w := world question_page (Resolved (mkResponse 200 (inr body))) in
  let w1 := after askQuestion w in
  let w2 := after askQuestion (type_into Question (js " And app.py? ") w1) in
  ∃ r1 r2,
    chat_box (page w2) =
      chat_box (page w) ++
        [js "You: " ++ trim (question (page w)); r1;
         js "You: " ++ trim (js " And app.py? "); r2] ∧
    is_reply r1 ∧ is_reply r2.
Proof.
  intros body w.
  apply (askQuestion_twice_four_entries w (js " And app.py? ")); by vm_compute.
Defined.

Lemma blank_input_only_notice_witness :
  let w0 := world empty_page (Resolved (mkResponse 200 (inl html_body))) in
  let w := world spaces_page (Resolved (mkResponse 200 (inl html_body))) in
  (trace (after loadRepo w0) = [Alert (js "Please enter a GitHub repo URL")] ∧
   requests (after loadRepo w0) = [] ∧
   page (after loadRepo w0) = empty_page) ∧
  (trace (after loadRepo w) = [Alert (js "Please enter a GitHub repo URL")] ∧
   requests (after loadRepo w) = [] ∧
   page (after loadRepo w) = spaces_page) ∧
  (trace (after generateSummary w) =
     [SetText SummaryBox (js "Please enter both repo URL and role.")] ∧
   requests (after generateSummary w) = [] ∧
   summary_box (page (after generateSummary w)) =
     js "Please enter both repo URL and role.").
Proof.
  intros w0 w. split; [|split].
  - destruct (blank_input_only_notice LoadRepository w0) as (_ & Htrace & Hreq & Hpage);
      [by vm_compute | done].
  - destruct (blank_input_only_notice LoadRepository w) as (_ & Htrace & Hreq & Hpage);
      [by vm_compute | done].
  - destruct (blank_input_only_notice GenerateSummary w) as (_ & Htrace & Hreq & Hpage);
      [left; by vm_compute|].
    split; [done|]. split; [done|]. cbn in Hpage. by rewrite Hpage.
Defined.

(** The claim C9 as stated fails.  On a blank repository URL the run of
    [loadRepo] ends at its alert: the last effect is not a write to
    [#files], which keeps its text.  On a 200 response whose body does
    not parse, a failure, the run raises no alert and leaves [#files]
    empty: nothing is reported to the operator.  The same happens on a
    500 response whose body does not parse. *)
Lemma handlers_report_counterexample :
  let w0 := world (set_text_doc Files (js "3 files") spaces_page) offline in
  let w1 := world repo_page (Resolved (mkResponse 200 (inl html_body))) in
  let w2 := world repo_page (Resolved (mkResponse 500 (inl html_body))) in
  (last (trace (after loadRepo w0)) = Some (Alert (js "Please enter a GitHub repo URL")) ∧
   ¬ writes_outcome LoadRepository (Alert (js "Please enter a GitHub repo URL")) ∧
   files (page (after loadRepo w0)) = js "3 files") ∧
  (files (page (after loadRepo w1)) = [] ∧
   ¬ is_error (files (page (after loadRepo w1))) ∧
   Forall (λ ev, ∀ msg, ev ≠ Alert msg) (trace (after loadRepo w1))) ∧
  (files (page (after loadRepo w2)) = [] ∧
   ¬ is_error (files (page (after loadRepo w2))) ∧
   Forall (λ ev, ∀ msg, ev ≠ Alert msg) (trace (after loadRepo w2))).
Proof.
  intros w0 w1 w2.
  assert (¬ is_error []) as Hempty by (by intros [s Hs]).
  assert (∀ w, w = w1 ∨ w = w2 →
            files (page (after loadRepo w)) = [] ∧
            trace (after loadRepo w) =
              [SetText Files (js "Loading repository" ++ ellipsis);
               Fetch (load_repo_request
                        (js "https%3A%2F%2Fgithub.com%2Foctocat%2FHello-World"));
               SetText Files []]) as Hrun.
  { intros w [-> | ->]; by vm_compute. }
  split; [|split].
  - split; [by vm_compute|]. split; [by intros []|by vm_compute].
  - destruct (Hrun w1) as [-> ->]; [by left|].
    split; [done|]. split; [done|]. by repeat constructor.
  - destruct (Hrun w2) as [-> ->]; [by right|].
    split; [done|]. split; [done|]. by repeat constructor.
Qed.

(** ** Runs for the further properties *)

Ltac units := apply (bool_decide_unpack _); by vm_compute.

Ltac summary_responds :=
  split; [by vm_compute|]; (split; [by vm_compute | done]).

Lemma loadRepo_sends_escaped_url_witness :
  let w := world repo_page offline in
  let encoded := js "https%3A%2F%2Fgithub.com%2Foctocat%2FHello-World" in
  requests (after loadRepo w) = requests w ++ [Fetch (load_repo_request encoded)] ∧
  Forall (λ c, uri_safe c = true) encoded.
Proof.
  intros w encoded.
  apply (loadRepo_sends_escaped_url w encoded); [units | by vm_compute | by vm_compute].
Defined.

Lemma loadRepo_transport_failure_witness :
  let w := world repo_page offline in
  (call loadRepo w).1 = Fulfilled ∧
  files (page (after loadRepo w)) = js "Error: Failed to fetch".
Proof.
  intros w.
  apply (loadRepo_transport_failure w
           (js "https%3A%2F%2Fgithub.com%2Foctocat%2FHello-World")
           (mkError TypeError (js "Failed to fetch")));
    [by vm_compute | by vm_compute | done].
Defined.

Lemma loadRepo_malformed_url_witness :
  let w := world surrogate_page (Resolved (mkResponse 200 (inr (object [])))) in
  (call loadRepo w).1 = Fulfilled ∧
  requests (after loadRepo w) = requests w ∧
  files (page (after loadRepo w)) = js "Error: URI malformed".
Proof.
  intros w. apply (loadRepo_malformed_url w); by vm_compute.
Defined.

Lemma loadRepo_missing_message_witness :
  let body := object [(js "status", JStr (js "ok"))] in
  let w := world repo_page (Resolved (mkResponse 200 (inr body))) in
  (call loadRepo w).1 = Fulfilled ∧ files (page (after loadRepo w)) = [].
Proof.
  intros body w.
  apply (loadRepo_missing_message w (mkResponse 200 (inr body)) body);
    [responds | done | done | done | left; by vm_compute].
Defined.

Lemma askQuestion_answer_witness :
  let body := object [(js "answer", JStr (js "It starts the server."))] in
  let w := world question_page (Resolved (mkResponse 200 (inr body))) in
  (call askQuestion w).1 = Fulfilled ∧
  chat_box (page (after askQuestion w)) =
    chat_box (page w) ++
      [js "You: " ++ trim (question (page w)); js "Bot: " ++ js "It starts the server."].
Proof.
  intros body w.
  apply (askQuestion_answer w (mkResponse 200 (inr body)) body);
    [responds | done | done | by vm_compute].
Defined.

Lemma askQuestion_error_status_ignores_body_witness :
  let body := object [(js "error", JStr (js "rate limited"))] in
  let w := world question_page (Resolved (mkResponse 429 (inr body))) in
  (call askQuestion w).1 = Fulfilled ∧
  chat_box (page (after askQuestion w)) =
    chat_box (page w) ++
      [js "You: " ++ trim (question (page w)); js "Error: Failed to get answer"].
Proof.
  intros body w.
  apply (askQuestion_error_status_ignores_body w (mkResponse 429 (inr body)));
    [responds | done].
Defined.

Lemma askQuestion_transport_failure_witness :
  let w := world question_page offline in
  (call askQuestion w).1 = Fulfilled ∧
  chat_box (page (after askQuestion w)) =
    chat_box (page w) ++
      [js "You: " ++ trim (question (page w));
       js "Error: " ++ message (mkError TypeError (js "Failed to fetch"))].
Proof.
  intros w.
  apply (askQuestion_transport_failure w (js "What%20does%20main.py%20do%3F"));
    [by vm_compute | by vm_compute | done].
Defined.

Lemma askQuestion_unparseable_success_witness :
  let w := world question_page (Resolved (mkResponse 200 (inl html_body))) in
  (call askQuestion w).1 = Fulfilled ∧
  chat_box (page (after askQuestion w)) =
    chat_box (page w) ++
      [js "You: " ++ trim (question (page w)); js "Error: " ++ message html_body].
Proof.
  intros w.
  apply (askQuestion_unparseable_success w (mkResponse 200 (inl html_body)));
    [responds | done | done].
Defined.

Lemma askQuestion_missing_answer_witness :
  let body := object [(js "reply", JStr (js "It starts the server."))] in
  let w := world question_page (Resolved (mkResponse 200 (inr body))) in
  (call askQuestion w).1 = Fulfilled ∧
  chat_box (page (after askQuestion w)) =
    chat_box (page w) ++
      [js "You: " ++ trim (question (page w)); js "Bot: undefined"].
Proof.
  intros body w.
  apply (askQuestion_missing_answer w (mkResponse 200 (inr body)) body);
    [responds | done | done | done | by vm_compute].
Defined.

Lemma askQuestion_malformed_question_witness :
  let w := world surrogate_page (Resolved (mkResponse 200 (inr (object [])))) in
  (call askQuestion w).1 = Fulfilled ∧
  requests (after askQuestion w) = requests w ∧
  chat_box (page (after askQuestion w)) =
    chat_box (page w) ++
      [js "You: " ++ trim (question (page w)); js "Error: " ++ js "URI malformed"].
Proof.
  intros w. apply (askQuestion_malformed_question w); by vm_compute.
Defined.

Lemma askQuestion_sends_escaped_question_witness :
  let w := world accent_page offline in
  let encoded := js "Caf%C3%A9%20%F0%9F%98%80%3F" in
  requests (after askQuestion w) = requests w ++ [Fetch (ask_request encoded)] ∧
  Forall (λ c, uri_safe c = true) encoded.
Proof.
  intros w encoded.
  apply (askQuestion_sends_escaped_question w encoded);
    [units | by vm_compute | by vm_compute].
Defined.

Lemma generateSummary_error_status_display_witness :
  let body := object [(js "error", JStr (js "repository not found"))] in
  let w := world summary_page (Resolved (mkResponse 404 (inr body))) in
  (call generateSummary w).1 = Fulfilled ∧
  summary_box (page (after generateSummary w)) = js "Error: repository not found".
Proof.
  intros body w.
  apply (generateSummary_error_status_display w (mkResponse 404 (inr body)) body);
    [summary_responds | done | done | done | right; by eexists].
Defined.

Lemma generateSummary_success_shows_summary_witness :
  let body := object [(js "summary", JStr (js "A small Flask service."))] in
  let w := world summary_page (Resolved (mkResponse 200 (inr body))) in
  (call generateSummary w).1 = Fulfilled ∧
  summary_box (page (after generateSummary w)) = js "A small Flask service.".
Proof.
  intros body w.
  apply (generateSummary_success_shows_summary w (mkResponse 200 (inr body)) body);
    [summary_responds | done | done | by vm_compute].
Defined.

Lemma generateSummary_transport_failure_witness :
  let w := world summary_page offline in
  (call generateSummary w).1 = Fulfilled ∧
  summary_box (page (after generateSummary w)) = js "Error: Failed to fetch".
Proof.
  intros w.
  apply (generateSummary_transport_failure w (mkError TypeError (js "Failed to fetch")));
    [by vm_compute | by vm_compute | done].
Defined.

Lemma generateSummary_sends_trimmed_fields_witness :
  let d := mkDocument [] [] (js "  dev" ++ [0xD83D] ++ js " ")
                      (js " https://github.com/octocat/Hello-World  ") [] [] [] in
  let w := world d offline in
  requests (after generateSummary w) =
    [Fetch (mkRequest (js "/process_repo") (js "POST") []
              (FormData [(js "role", js "dev" ++ [0xFFFD]);
                         (js "repo_link", js "https://github.com/octocat/Hello-World")]))].
Proof.
  intros d w.
  etrans; [apply (generateSummary_sends_trimmed_fields w); by vm_compute|].
  by vm_compute.
Defined.

Lemma Part000_loadRepo_reports_error_status_witness :
  let body := object [(js "error", JStr (js "rate limited"))] in
  let w := world repo_page (Resolved (mkResponse 500 (inr body))) in
  (call Part000.loadRepo w).1 = Fulfilled ∧
  files (page (after Part000.loadRepo w)) = js "Error: Failed to load repo".
Proof.
  intros body w.
  apply (Part000_loadRepo_reports_error_status w (mkResponse 500 (inr body)));
    [responds | done].
Defined.

Lemma loadRepo_copies_agree_witness :
  let body := object [(js "message", JStr (js "42 files"))] in
  let w := world repo_page (Resolved (mkResponse 200 (inr body))) in
  call Part000.loadRepo w = call loadRepo w.
Proof.
  intros body w. apply (loadRepo_copies_agree w).
  intros encoded resp _ [= <-]. split; [done | by exists body].
Defined.

Lemma generateSummary_copies_agree_witness :
  let body := object [(js "error", JStr (js "repository not found"))] in
  let w := world summary_page (Resolved (mkResponse 404 (inr body))) in
  call Part000.generateSummary w = call generateSummary w.
Proof.
  intros body w. apply (generateSummary_copies_agree w). by exists body.
Defined.

Lemma Part000_generateSummary_unparseable_witness :
  let w := world summary_page (Resolved (mkResponse 502 (inl html_body))) in
  (call Part000.generateSummary w).1 = Fulfilled ∧
  summary_box (page (after Part000.generateSummary w)) =
    js "Error: " ++ message html_body.
Proof.
  intros w.
  apply (Part000_generateSummary_unparseable w (mkResponse 502 (inl html_body)));
    [summary_responds | done].
Defined.

Lemma handlers_ignore_surrounding_white_space_witness :
  let w := world repo_page offline in
  let padded := [0x9; 0x20] ++ input_value RepoUrl (page w) ++ [0xA0; 0xA] in
  call loadRepo (type_into RepoUrl padded w) =
    ((call loadRepo w).1, type_into RepoUrl padded (after loadRepo w)).
Proof.
  intros w.
  apply (handlers_ignore_surrounding_white_space LoadRepository RepoUrl
           [0x9; 0x20] [0xA0; 0xA] w); by repeat constructor.
Defined.

Lemma ask_each_log_witness :
  let body := object [(js "answer", JStr (js "It starts the server."))] in
  let w := world question_page (Resolved (mkResponse 200 (inr body))) in
  let qs := [js "What does main.py do?"; js " And app.py? "; js "Thanks"] in
  ∃ replies,
    length replies = length qs ∧ Forall is_reply replies ∧
    chat_box (page (ask_each qs w)) =
      chat_box (page w) ++
        mjoin (zip_with (λ q r, [js "You: " ++ trim q; r]) qs replies).
Proof.
  intros body w qs. apply (ask_each_log qs w).
  repeat constructor; by vm_compute.
Defined.
